(** * huawei_solar: the batched register-access engine

    A shallow embedding of [src/huawei_solar/huawei_solar.py]
    (class [AsyncHuaweiSolar]) and the properties of its request planner,
    wire reader, access serializer and response decoder.

    Python integers are unbounded, hence [Z].  Durations handed to
    [asyncio.sleep] are rationals ([DEFAULT_COOLDOWN_TIME = 0.01]).  The
    coroutines are embedded as finite effect trees ([prog]): every [await]
    on the transport, on [asyncio.sleep] or on the communication lock is a
    node of the tree, and Python exceptions are the [Raise] leaves. *)

From Stdlib Require Import ZArith QArith List Lia Lqa.
From stdpp Require Import base option list gmap strings.

Local Open Scope Z_scope.

(** ** Module constants *)

Definition DEFAULT_SLAVE : Z := 0.
Definition DEFAULT_TIMEOUT : Z := 5.
Definition DEFAULT_WAIT : Z := 2.
Definition DEFAULT_COOLDOWN_TIME : Q := (1 # 100)%Q.

(** [max_tries=5] of the [backoff.on_exception] decorator on [_do_read]. *)
Definition max_tries : nat := 5.

(** ** Exceptions *)

(** The four [ValueError]s raised by [get_multiple]. *)
Inductive value_error : Type :=
  | ExpectedAtLeastOne
  | DidNotRecognize
  | NotMonotonic (prev_register prev_length next_register : Z)
  | GapTooLarge.

(** The three [ReadException]s: raised by [backoff_giveup], by the
    [except ModbusConnectionException] clause of [_do_read], and by
    [get_multiple] on an [ExceptionResponse]. *)
Inductive read_error : Type :=
  | FailedAfterTries (tries : nat)
  | CouldNotRead
  | GotError (register total_length code : Z).

Inductive exn : Type :=
  | ValueError (why : value_error)
  | ConnectionException
  | ReadException (why : read_error)
  | TimeoutError
  | ModbusConnectionException
  | OtherException (name : string).

(** What [read_holding_registers] returns: a register response, or a
    pymodbus [ExceptionResponse] (returned, not raised). *)
Inductive response : Type :=
  | Registers (registers : list Z)
  | ExceptionResponse (code : Z).

(** ** Observable events of one coroutine *)

Inductive event : Type :=
  | LockAcquire
  | LockRelease
  | ReadHolding (address count unit timeout : Z)
  | Sleep (seconds : Q).

Definition is_read (e : event) : bool :=
  match e with ReadHolding _ _ _ _ => true | _ => false end.

(** ** Coroutines as effect trees *)

Inductive prog (A : Type) : Type :=
  | Return (a : A)
  | Raise (e : exn)
  | Connected (k : bool -> prog A)
  | ReadHoldingRegisters (address count unit timeout : Z)
      (k : exn + response -> prog A)
  | AsyncioSleep (seconds : Q) (k : prog A)
  | Acquire (k : prog A)
  | Release (k : prog A).

Arguments Return {A} a.
Arguments Raise {A} e.
Arguments Connected {A} k.
Arguments ReadHoldingRegisters {A} address count unit timeout k.
Arguments AsyncioSleep {A} seconds k.
Arguments Acquire {A} k.
Arguments Release {A} k.

Fixpoint bind {A B : Type} (p : prog A) (f : A -> prog B) : prog B :=
  match p with
  | Return a => f a
  | Raise e => Raise e
  | Connected k => Connected (fun b => bind (k b) f)
  | ReadHoldingRegisters a c u t k =>
      ReadHoldingRegisters a c u t (fun r => bind (k r) f)
  | AsyncioSleep s k => AsyncioSleep s (bind k f)
  | Acquire k => Acquire (bind k f)
  | Release k => Release (bind k f)
  end.

(** [try: p  except Exception as e: h e] *)
Fixpoint catch {A : Type} (p : prog A) (h : exn -> prog A) : prog A :=
  match p with
  | Return a => Return a
  | Raise e => h e
  | Connected k => Connected (fun b => catch (k b) h)
  | ReadHoldingRegisters a c u t k =>
      ReadHoldingRegisters a c u t (fun r => catch (k r) h)
  | AsyncioSleep s k => AsyncioSleep s (catch k h)
  | Acquire k => Acquire (catch k h)
  | Release k => Release (catch k h)
  end.

Declare Scope prog_scope.
Delimit Scope prog_scope with prog.
Notation "x <- p ;; q" := (bind p (fun x => q))
  (at level 100, p at next level, right associativity) : prog_scope.
Notation "p ;; q" := (bind p (fun _ => q))
  (at level 100, right associativity) : prog_scope.

Definition connected_ : prog bool := Connected Return.
Definition read_holding_registers_ (address count unit timeout : Z)
  : prog response :=
  ReadHoldingRegisters address count unit timeout
    (fun r => match r with inl e => Raise e | inr v => Return v end).
Definition sleep (seconds : Q) : prog unit := AsyncioSleep seconds (Return tt).

(** [async with lock: body]: the lock is released on the way out, whether
    the body returns or raises. *)
Definition async_with_lock {A : Type} (body : prog A) : prog A :=
  Acquire
    (catch (bind body (fun a => Release (Return a)))
           (fun e => Release (Raise e))).

(** ** The transport collaborator

    [self._client]: the [connected] property and
    [protocol.read_holding_registers(address, count, unit=, timeout=)],
    which returns a response or raises, and may change the client's state. *)

Class Transport (T : Type) : Type := {
  connected : T -> bool;
  read_holding_registers :
    T -> Z -> Z -> Z -> Z -> (exn + response) * T
}.

(** The outcome of running a coroutine to completion with the session to
    itself: what it returned or raised, the client afterwards, and the events
    it produced, oldest first. *)
Record outcome (T A : Type) : Type := Outcome {
  result : exn + A;
  client : T;
  trace : list event
}.
Arguments Outcome {T A} result client trace.
Arguments result {T A} o.
Arguments client {T A} o.
Arguments trace {T A} o.

Definition emit {T A : Type} (e : event) (o : outcome T A) : outcome T A :=
  Outcome (result o) (client o) (e :: trace o).

Fixpoint run {T : Type} `{Transport T} {A : Type} (p : prog A) (c : T)
  : outcome T A :=
  match p with
  | Return a => Outcome (inr a) c []
  | Raise e => Outcome (inl e) c []
  | Connected k => run (k (connected c)) c
  | ReadHoldingRegisters a n u t k =>
      let '(r, c') := read_holding_registers c a n u t in
      emit (ReadHolding a n u t) (run (k r) c')
  | AsyncioSleep s k => emit (Sleep s) (run k c)
  | Acquire k => emit LockAcquire (run k c)
  | Release k => emit LockRelease (run k c)
  end.

(** Number of wire reads in a trace, and the time slept in it. *)
Definition wire_reads (tr : list event) : nat :=
  length (filter (fun e => is_read e = true) tr).

Fixpoint elapsed (tr : list event) : Q :=
  match tr with
  | [] => 0%Q
  | Sleep s :: tr' => (s + elapsed tr')%Q
  | _ :: tr' => elapsed tr'
  end.

(** ** The wire reader and the access serializer: [_read_registers] *)

(** [slave or self.slave]: a per-call slave of [None] or [0] is falsy. *)
Definition slave_or (slave : option Z) (self_slave : Z) : Z :=
  match slave with
  | Some s => if s =? 0 then self_slave else s
  | None => self_slave
  end.

Definition backoff_giveup {A : Type} (tries : nat) : prog A :=
  Raise (ReadException (FailedAfterTries tries)).

(** [backoff.on_exception(backoff.constant, asyncio.TimeoutError,
    interval=DEFAULT_WAIT, max_tries=5, jitter=None, on_giveup=...)].
    The library counts [tries] from 1, calls the target, and on
    [TimeoutError] either gives up when [tries == max_tries] or sleeps the
    constant interval and loops; any other exception leaves the loop at once.
    [tries] is the number of calls already made and [retries_left] is
    [max_tries - (tries + 1)], so [retries_left = 0] is the library's test
    [tries == max_tries] for the call being made. *)
Fixpoint on_exception {A : Type} (retries_left tries : nat)
    (target : prog A) : prog A :=
  catch target (fun e =>
    match e with
    | TimeoutError =>
        match retries_left with
        | O => backoff_giveup (S tries)
        | S n =>
            AsyncioSleep (inject_Z DEFAULT_WAIT)
              (on_exception n (S tries) target)
        end
    | _ => Raise e
    end).

Section Session.

(** Decoded register values ([int], [str], [datetime], enums, ...). *)
Context {Value : Type}.

Record AsyncHuaweiSolar : Type := {
  _timeout : Z;
  _cooldown_time : Q;
  slave : Z;
  time_zone : option Value;
  battery_type : option Value
}.

Definition _do_read (self : AsyncHuaweiSolar) (register length : Z)
    (slave_arg : option Z) : prog response :=
  (c <- connected_ ;;
   if negb c then Raise ConnectionException
   else
     catch
       (read_holding_registers_ register length
          (slave_or slave_arg (slave self)) (_timeout self))
       (fun e =>
          match e with
          | ModbusConnectionException => Raise (ReadException CouldNotRead)
          | _ => Raise e
          end))%prog.

Definition _read_registers (self : AsyncHuaweiSolar) (register length : Z)
    (slave_arg : option Z) : prog response :=
  async_with_lock
    (result <- on_exception (max_tries - 1) 0
                 (_do_read self register length slave_arg) ;;
     sleep (_cooldown_time self) ;;
     Return result)%prog.

End Session.
Arguments AsyncHuaweiSolar Value : clear implicits.

(** ** The payload decoder (pymodbus [BinaryPayloadDecoder]) *)

Record BinaryPayloadDecoder : Type := {
  payload : list Z;   (* bytes *)
  pointer : Z         (* read cursor, in bytes *)
}.

(** [pack('!H', x)]: the two bytes of a 16-bit word, most significant
    first; [struct.error] for a value outside [0 .. 65535]. *)
Definition pack_H (x : Z) : exn + list Z :=
  if (0 <=? x) && (x <=? 65535)
  then inr [Z.land (Z.shiftr x 8) 255; Z.land x 255]
  else inl (OtherException "struct.error").

(** [b''.join(pack('!H', x) for x in registers)] *)
Fixpoint pack_registers (registers : list Z) : exn + list Z :=
  match registers with
  | [] => inr []
  | x :: registers' =>
      match pack_H x with
      | inl e => inl e
      | inr word =>
          match pack_registers registers' with
          | inl e => inl e
          | inr bytes => inr (word ++ bytes)
          end
      end
  end.

(** [BinaryPayloadDecoder.fromRegisters(registers, byteorder=Endian.Big,
    wordorder=Endian.Big)]: the registers are packed into the payload and
    the cursor starts at 0; a register that is no 16-bit word makes the
    packing raise. *)
Definition fromRegisters (registers : list Z) : exn + BinaryPayloadDecoder :=
  match pack_registers registers with
  | inl e => inl e
  | inr bytes => inr {| payload := bytes; pointer := 0 |}
  end.

Definition skip_bytes (decoder : BinaryPayloadDecoder) (nbytes : Z)
  : BinaryPayloadDecoder :=
  {| payload := payload decoder; pointer := pointer decoder + nbytes |}.

(** ** The register schema *)

(** The [unit] attribute of a definition, as [_decode_response] inspects it. *)
Inductive unit_attr : Type :=
  | NoUnitAttr
  | CallableUnit
  | DictUnit
  | StaticUnit (u : option string).

(** Class [RegisterDefinition] and the table [REGISTERS] live in
    [registers.py], outside the file embedded here: a definition is a record
    with the attributes the engine reads, its [decode] method is a field,
    and the table is a variable of the engine. *)
Module RegisterDefinition.
(** [decode(decoder, inverter)] reads at the decoder's cursor and advances
    it; it may raise. *)
Record t (Value : Type) : Type := {
  register : Z;
  length : Z;
  unit : unit_attr;
  decode :
    BinaryPayloadDecoder -> AsyncHuaweiSolar Value ->
    exn + (Value * BinaryPayloadDecoder)
}.
Arguments register {Value} _.
Arguments length {Value} _.
Arguments unit {Value} _.
Arguments decode {Value} _ _ _.
End RegisterDefinition.

Abbreviation RegisterDefinition := RegisterDefinition.t.

Section Engine.

Context {Value : Type}.

(** [Result = namedtuple("Result", "value unit")] *)
Record Result : Type := { value : Value; unit : option string }.

(** [REGISTERS], the schema table. *)
Variable REGISTERS : gmap string (RegisterDefinition Value).

Definition _decode_response (self : AsyncHuaweiSolar Value)
    (reg : RegisterDefinition Value) (decoder : BinaryPayloadDecoder)
  : exn + (Result * BinaryPayloadDecoder) :=
  match RegisterDefinition.decode reg decoder self with
  | inl e => inl e
  | inr (result, decoder') =>
      match RegisterDefinition.unit reg with
      | StaticUnit u => inr ({| value := result; unit := u |}, decoder')
      | _ => inr ({| value := result; unit := None |}, decoder')
      end
  end.

(** The validation loop [for idx in range(1, len(names))], walking the
    consecutive pairs [registers[idx - 1]], [registers[idx]]. *)
Fixpoint check_registers (prev : RegisterDefinition Value)
    (rest : list (RegisterDefinition Value)) : option value_error :=
  match rest with
  | [] => None
  | cur :: rest' =>
      if RegisterDefinition.register prev + RegisterDefinition.length prev
         >? RegisterDefinition.register cur
      then Some (NotMonotonic (RegisterDefinition.register prev)
                   (RegisterDefinition.length prev)
                   (RegisterDefinition.register cur))
      else
        let register_distance :=
          RegisterDefinition.register prev + RegisterDefinition.length prev
          - RegisterDefinition.register cur in
        if register_distance >? 64 then Some GapTooLarge
        else check_registers cur rest'
  end.

(** The decoding loop [for idx in range(1, len(registers))]. *)
Fixpoint decode_rest (self : AsyncHuaweiSolar Value)
    (prev : RegisterDefinition Value)
    (rest : list (RegisterDefinition Value))
    (decoder : BinaryPayloadDecoder) : exn + list Result :=
  match rest with
  | [] => inr []
  | cur :: rest' =>
      let skip_registers :=
        RegisterDefinition.register cur
        - (RegisterDefinition.register prev
           + RegisterDefinition.length prev) in
      let decoder := skip_bytes decoder (skip_registers * 2) in
      match _decode_response self cur decoder with
      | inl e => inl e
      | inr (r, decoder') =>
          match decode_rest self cur rest' decoder' with
          | inl e => inl e
          | inr rs => inr (r :: rs)
          end
      end
  end.

(** [list(map(REGISTERS.get, names))] followed by the test
    [None in registers]: [None] when some name is not in the table. *)
Definition resolve (names : list string)
  : option (list (RegisterDefinition Value)) :=
  mapM (fun name => REGISTERS !! name) names.

(** [result = [await self._decode_response(registers[0], decoder)]]
    followed by the decoding loop. *)
Definition decode_all (self : AsyncHuaweiSolar Value)
    (first : RegisterDefinition Value)
    (rest : list (RegisterDefinition Value))
    (decoder : BinaryPayloadDecoder) : exn + list Result :=
  match _decode_response self first decoder with
  | inl e => inl e
  | inr (r, decoder') =>
      match decode_rest self first rest decoder' with
      | inl e => inl e
      | inr rs => inr (r :: rs)
      end
  end.

Definition lift {A : Type} (r : exn + A) : prog A :=
  match r with inl e => Raise e | inr a => Return a end.

Definition get_multiple (self : AsyncHuaweiSolar Value)
    (names : list string) (slave_arg : option Z) : prog (list Result) :=
  match names with
  | [] => Raise (ValueError ExpectedAtLeastOne)
  | _ :: _ =>
      match resolve names with
      | None => Raise (ValueError DidNotRecognize)
      | Some [] => Raise (ValueError DidNotRecognize) (* no such case *)
      | Some (first :: rest) =>
          match check_registers first rest with
          | Some why => Raise (ValueError why)
          | None =>
              let total_length :=
                RegisterDefinition.register (List.last rest first)
                + RegisterDefinition.length (List.last rest first)
                - RegisterDefinition.register first in
              (response <- _read_registers self
                             (RegisterDefinition.register first)
                             total_length slave_arg ;;
               match response with
               | ExceptionResponse code =>
                   Raise (ReadException
                            (GotError (RegisterDefinition.register first)
                               total_length code))
               | Registers registers =>
                   decoder <- lift (fromRegisters registers) ;;
                   lift (decode_all self first rest decoder)
               end)%prog
          end
      end
  end.

Definition get (self : AsyncHuaweiSolar Value) (name : string)
    (slave_arg : option Z) : prog Result :=
  (results <- get_multiple self [name] slave_arg ;;
   match results with
   | r :: _ => Return r
   | [] => Raise (OtherException "IndexError")
   end)%prog.

End Engine.
Arguments Result Value : clear implicits.

(** ** Creating and stopping a session: [create], [__get_client], [stop] *)

(** [client.stop()] of the pymodbus client: it stops the client and, as any
    call, may raise. *)
Class Stoppable (T : Type) : Type := {
  client_stop : T -> option exn * T
}.

(** What happens while a session is created: events of the session under
    construction, and the stopping of its client. *)
Inductive lifecycle_event : Type :=
  | During (e : event)
  | ClientStopped.

(** The outcome of [create]: the session or the exception raised, the
    client if one was obtained, and what happened, oldest first. *)
Record creation (T Value : Type) : Type := Creation {
  created : exn + AsyncHuaweiSolar Value;
  created_client : option T;
  history : list lifecycle_event
}.
Arguments Creation {T Value} created created_client history.
Arguments created {T Value} c.
Arguments created_client {T Value} c.
Arguments history {T Value} c.

Section Lifecycle.

Context {Value T : Type} `{Transport T} `{Stoppable T}.

Variable REGISTERS : gmap string (RegisterDefinition Value).

(** [rn.TIME_ZONE] and [rn.STORAGE_UNIT_1_PRODUCT_MODEL], two names of
    [register_names.py]. *)
Variables TIME_ZONE STORAGE_UNIT_1_PRODUCT_MODEL : string.

(** [__init__]: the attributes of a fresh session; [time_zone] and
    [battery_type] are set by [create]. *)
Definition __init__ (slave_arg timeout : Z) (cooldown_time : Q)
  : AsyncHuaweiSolar Value :=
  {| _timeout := timeout;
     _cooldown_time := cooldown_time;
     slave := slave_arg;
     time_zone := None;
     battery_type := None |}.

(** [__get_client]: [init_tcp_client] connects or raises (its outcome is
    given); after a connect the coroutine sleeps one second. *)
Definition __get_client (init_tcp_client : exn + T)
  : (exn + T) * list event :=
  match init_tcp_client with
  | inl err => (inl err, [])
  | inr tcp_client => (inr tcp_client, [Sleep 1%Q])
  end.

(** The [except Exception as err] clause of [create], entered with a
    client: [await client.stop()], then [raise err]; an exception raised by
    the stopping takes the place of [err]. *)
Definition stop_and_raise (err : exn) (tcp_client : T) (evs : list event)
  : creation T Value :=
  let '(raised, stopped) := client_stop tcp_client in
  Creation (inl (match raised with Some err' => err' | None => err end))
    (Some stopped) (map During evs ++ [ClientStopped]).

(** [create]: [host], [port] and [loop] only reach [init_tcp_client], whose
    outcome is given.  The two reads are [huawei_solar.get(...)] with the
    default [slave=None]; the second is made by the session whose
    [time_zone] the first has set. *)
Definition create (init_tcp_client : exn + T) (slave_arg timeout : Z)
    (cooldown_time : Q) : creation T Value :=
  match __get_client init_tcp_client with
  | (inl err, evs) =>
      (* [client is None]: nothing to stop *)
      Creation (inl err) None (map During evs)
  | (inr tcp_client, evs) =>
      let huawei_solar := __init__ slave_arg timeout cooldown_time in
      let o1 := run (get REGISTERS huawei_solar TIME_ZONE None) tcp_client in
      match result o1 with
      | inl err => stop_and_raise err (client o1) (evs ++ trace o1)
      | inr r1 =>
          let huawei_solar :=
            {| _timeout := _timeout huawei_solar;
               _cooldown_time := _cooldown_time huawei_solar;
               slave := slave huawei_solar;
               time_zone := Some (value r1);
               battery_type := battery_type huawei_solar |} in
          let o2 :=
            run (get REGISTERS huawei_solar STORAGE_UNIT_1_PRODUCT_MODEL None)
                (client o1) in
          match result o2 with
          | inl err =>
              stop_and_raise err (client o2)
                (evs ++ trace o1 ++ trace o2)
          | inr r2 =>
              Creation
                (inr {| _timeout := _timeout huawei_solar;
                        _cooldown_time := _cooldown_time huawei_solar;
                        slave := slave huawei_solar;
                        time_zone := time_zone huawei_solar;
                        battery_type := Some (value r2) |})
                (Some (client o2))
                (map During (evs ++ trace o1 ++ trace o2))
          end
      end
  end.

(** [stop]: [self._client.stop()]. *)
Definition stop (tcp_client : T) : option exn * T := client_stop tcp_client.

End Lifecycle.

(** ** Several callers sharing one session

    The callers are coroutines of one event loop.  A coroutine runs until it
    awaits: a request on the wire stays in flight until its response is
    received, [asyncio.sleep] suspends until the clock has advanced, and
    acquiring [_communication_lock] waits while another coroutine holds it.
    The scheduler is left free: [Run i] resumes caller [i] for one step and
    [Tick d] lets [d] seconds pass. *)

Inductive task (A : Type) : Type :=
  | Ready (p : prog A)
  | Sleeping (until : Q) (k : prog A)
  | InFlight (address count unit timeout : Z) (k : exn + response -> prog A).
Arguments Ready {A} p.
Arguments Sleeping {A} until k.
Arguments InFlight {A} address count unit timeout k.

Inductive label : Type :=
  | Did (e : event)
  | Received (r : exn + response).

Record stamped : Type := Stamped {
  at_time : Q;
  by_task : nat;
  what : label
}.

Record system (T A : Type) : Type := System {
  sys_client : T;
  sys_lock : option nat;        (* the caller holding [_communication_lock] *)
  sys_now : Q;
  sys_tasks : list (task A);
  sys_log : list stamped        (* newest first *)
}.
Arguments System {T A} sys_client sys_lock sys_now sys_tasks sys_log.
Arguments sys_client {T A} s.
Arguments sys_lock {T A} s.
Arguments sys_now {T A} s.
Arguments sys_tasks {T A} s.
Arguments sys_log {T A} s.

Inductive choice : Type :=
  | Run (i : nat)
  | Tick (d : Q).

Definition step {T : Type} `{Transport T} {A : Type}
    (ch : choice) (s : system T A) : option (system T A) :=
  let continue (i : nat) (c : T) (lock : option nat) (tk : task A)
               (evs : list label) :=
    Some (System c lock (sys_now s) (<[i := tk]> (sys_tasks s))
            (map (Stamped (sys_now s) i) evs ++ sys_log s)) in
  match ch with
  | Tick d =>
      if Qle_bool 0 d
      then Some (System (sys_client s) (sys_lock s) (sys_now s + d)%Q
                   (sys_tasks s) (sys_log s))
      else None
  | Run i =>
      match sys_tasks s !! i with
      | None => None
      | Some (Ready p) =>
          match p with
          | Return _ | Raise _ => None
          | Connected k =>
              continue i (sys_client s) (sys_lock s)
                (Ready (k (connected (sys_client s)))) []
          | ReadHoldingRegisters a n u t k =>
              continue i (sys_client s) (sys_lock s)
                (InFlight a n u t k) [Did (ReadHolding a n u t)]
          | AsyncioSleep d k =>
              continue i (sys_client s) (sys_lock s)
                (Sleeping (sys_now s + d)%Q k) [Did (Sleep d)]
          | Acquire k =>
              match sys_lock s with
              | Some _ => None
              | None =>
                  continue i (sys_client s) (Some i) (Ready k)
                    [Did LockAcquire]
              end
          | Release k =>
              continue i (sys_client s) None (Ready k) [Did LockRelease]
          end
      | Some (Sleeping until k) =>
          if Qle_bool until (sys_now s)
          then continue i (sys_client s) (sys_lock s) (Ready k) []
          else None
      | Some (InFlight a n u t k) =>
          let '(r, c') := read_holding_registers (sys_client s) a n u t in
          continue i c' (sys_lock s) (Ready (k r)) [Received r]
      end
  end.

Fixpoint exec {T : Type} `{Transport T} {A : Type}
    (schedule : list choice) (s : system T A) : option (system T A) :=
  match schedule with
  | [] => Some s
  | ch :: schedule' =>
      match step ch s with
      | Some s' => exec schedule' s'
      | None => None
      end
  end.

(** All callers start together on a free lock. *)
Definition start {T A : Type} (c : T) (callers : list (prog A))
  : system T A :=
  System c None 0%Q (map Ready callers) [].

Definition reachable {T : Type} `{Transport T} {A : Type}
    (c : T) (callers : list (prog A)) (s : system T A) : Prop :=
  exists schedule, exec schedule (start c callers) = Some s.

Definition in_flight {A : Type} (tk : task A) : bool :=
  match tk with InFlight _ _ _ _ _ => true | _ => false end.

Definition finished {A : Type} (tk : task A) : bool :=
  match tk with
  | Ready (Return _) | Ready (Raise _) => true
  | _ => false
  end.

(** [i] did [l] at time [t] somewhere in the log. *)
Definition logged (log : list stamped) (t : Q) (i : nat) (l : label) : Prop :=
  In (Stamped t i l) log.

(** A read sent by [j] at [t2] after [i] had received [r] at [t1]. *)
Definition read_after (log : list stamped)
    (t1 : Q) (i : nat) (r : exn + response) (t2 : Q) (j : nat) : Prop :=
  exists newer between older a n u t,
    log = newer ++ Stamped t2 j (Did (ReadHolding a n u t))
                :: between ++ Stamped t1 i (Received r) :: older.

(** * The vocabulary of the properties *)

(** ** Requests *)

(** Some pair of neighbours overlaps or is out of order. *)
Definition overlapping {Value : Type}
    (regs : list (RegisterDefinition Value)) : Prop :=
  exists i prev cur,
    regs !! i = Some prev /\ regs !! S i = Some cur /\
    RegisterDefinition.register prev + RegisterDefinition.length prev
    > RegisterDefinition.register cur.

(** Some pair of neighbours is more than [gap] words apart. *)
Definition gap_exceeds {Value : Type} (gap : Z)
    (regs : list (RegisterDefinition Value)) : Prop :=
  exists i prev cur,
    regs !! i = Some prev /\ regs !! S i = Some cur /\
    RegisterDefinition.register cur
    - (RegisterDefinition.register prev + RegisterDefinition.length prev)
    > gap.

(** [total_length] of an accepted request. *)
Definition total_length {Value : Type} (first : RegisterDefinition Value)
    (rest : list (RegisterDefinition Value)) : Z :=
  RegisterDefinition.register (List.last rest first)
  + RegisterDefinition.length (List.last rest first)
  - RegisterDefinition.register first.

(** The request that [_do_read] puts on the wire. *)
Definition request {Value : Type} (self : AsyncHuaweiSolar Value)
    (register length : Z) (slave_arg : option Z)
  : event :=
  ReadHolding register length (slave_or slave_arg (slave self))
    (_timeout self).

(** ** Traces of one caller *)

(** The client after [k] reads in a row that each found it connected and
    timed out; [None] when the first [k] reads do not go that way. *)
Fixpoint after_timeouts {T : Type} `{Transport T}
    (k : nat) (c : T) (address count unit timeout : Z) : option T :=
  match k with
  | O => Some c
  | S k' =>
      if connected c then
        match read_holding_registers c address count unit timeout with
        | (inl TimeoutError, c') =>
            after_timeouts k' c' address count unit timeout
        | _ => None
        end
      else None
  end.

(** [k] rounds of "send, time out, back off". *)
Definition backoff_rounds (sent : event) (k : nat) : list event :=
  concat (repeat [sent; Sleep (inject_Z DEFAULT_WAIT)] k).

(** What the retry loop leaves in the trace: requests and backoff sleeps. *)
Definition exchange_events (sent : event) (body : list event) : Prop :=
  Forall (fun e => e = sent \/ e = Sleep (inject_Z DEFAULT_WAIT)) body.

(** The lock is taken, the exchange runs, the cooldown is slept, and only
    then is the lock given back. *)
Definition held_through_cooldown (cooldown : Q) (sent : event)
    (tr : list event) : Prop :=
  exists body,
    exchange_events sent body
    /\ tr = LockAcquire :: body ++ [Sleep cooldown; LockRelease].

(** The lock is taken, the exchange runs, and the lock is given back right
    after it. *)
Definition released_after_exchange (sent : event) (tr : list event) : Prop :=
  exists body,
    exchange_events sent body /\ tr = LockAcquire :: body ++ [LockRelease].

(** ** The decoder of the specification *)

Section DecoderWords.

Context {Value : Type}.
Implicit Types self : AsyncHuaweiSolar Value.
Implicit Types defs rest : list (RegisterDefinition Value).

(** The buffer as the specification words it: "big-endian, 2 bytes per
    word", the most significant byte of a word first. *)
Definition word16 (w : Z) : Prop := 0 <= w <= 65535.

Definition spec_bytes (words : list Z) : list Z :=
  flat_map (fun w => [w / 256; w mod 256]) words.

(** "A read cursor over the buffer": the bytes and a position in them. *)
Definition cursor_at (bytes : list Z) (position : Z) : BinaryPayloadDecoder :=
  {| payload := bytes; pointer := position |}.







End DecoderWords.

(** ** Callers and the lock *)

(** Where a caller stands with respect to the lock. *)
Inductive phase : Type := Before | Holding | After.

(** The shape of a coroutine that uses the lock as [_read_registers] does,
    seen from phase [ph]: it acquires once, sends reads only while holding,
    sleeps [cooldown] first thing after a read has returned, releases once,
    and ends after that. *)
Fixpoint disciplined {A : Type} (cooldown : Q) (ph : phase) (p : prog A)
  : Prop :=
  match p with
  | Return _ | Raise _ => ph = After
  | Connected k => forall b, disciplined cooldown ph (k b)
  | ReadHoldingRegisters _ _ _ _ k =>
      ph = Holding
      /\ (forall r, disciplined cooldown Holding (k r))
      /\ (forall resp, exists k', k (inr resp) = AsyncioSleep cooldown k')
  | AsyncioSleep _ k => disciplined cooldown ph k
  | Acquire k => ph = Before /\ disciplined cooldown Holding k
  | Release k => ph = Holding /\ disciplined cooldown After k
  end.

Definition task_disciplined {A : Type} (cooldown : Q) (ph : phase)
    (tk : task A) : Prop :=
  match tk with
  | Ready p => disciplined cooldown ph p
  | Sleeping _ k => disciplined cooldown ph k
  | InFlight _ _ _ _ k =>
      ph = Holding
      /\ (forall r, disciplined cooldown Holding (k r))
      /\ (forall resp, exists k', k (inr resp) = AsyncioSleep cooldown k')
  end.

Definition is_acquire (l : label) : bool :=
  match l with Did LockAcquire => true | _ => false end.
Definition is_release (l : label) : bool :=
  match l with Did LockRelease => true | _ => false end.

(** How often caller [i] did something of kind [f]. *)
Fixpoint count_by (f : label -> bool) (i : nat) (log : list stamped) : nat :=
  match log with
  | [] => 0
  | st :: log' =>
      ((if (by_task st =? i)%nat && f (what st) then 1 else 0)
       + count_by f i log')%nat
  end.

(** The phase of caller [i], read off its latest lock event. *)
Fixpoint phase_of (log : list stamped) (i : nat) : phase :=
  match log with
  | [] => Before
  | st :: log' =>
      if (by_task st =? i)%nat then
        match what st with
        | Did LockAcquire => Holding
        | Did LockRelease => After
        | _ => phase_of log' i
        end
      else phase_of log' i
  end.

(** The spacing the specification asks for: any read sent by a caller comes
    at least [cooldown] after whatever another caller received before. *)
Definition spaced_by_cooldown (cooldown : Q) (log : list stamped) : Prop :=
  forall t1 i r t2 j,
    read_after log t1 i r t2 j -> i <> j -> (t1 + cooldown <= t2)%Q.

(** The same, only after exchanges that returned a response. *)
Definition spaced_after_response (cooldown : Q) (log : list stamped) : Prop :=
  forall t1 i resp t2 j,
    read_after log t1 i (inr resp) t2 j -> i <> j ->
    (t1 + cooldown <= t2)%Q.

(** Labels that are no lock events leave phases and counts alone. *)
Definition no_lock_event (l : label) : Prop :=
  is_acquire l = false /\ is_release l = false.

(** ** Invariants of the shared session *)

Section Invariants.

Context {T A : Type}.
Variable cooldown : Q.
Implicit Types s : system T A.

(** Bracketing: every caller is in the phase its lock events say, the lock
    is with the caller that is in its guarded section, and nobody acquires
    or releases twice. *)
Record bracketed s : Prop := Bracketed {
  br_tasks : forall i tk,
    sys_tasks s !! i = Some tk ->
    task_disciplined cooldown (phase_of (sys_log s) i) tk;
  br_lock : forall i,
    phase_of (sys_log s) i = Holding -> sys_lock s = Some i;
  br_count : forall i,
    count_by is_acquire i (sys_log s) =
      match phase_of (sys_log s) i with Before => 0%nat | _ => 1%nat end
    /\ count_by is_release i (sys_log s) =
      match phase_of (sys_log s) i with After => 1%nat | _ => 0%nat end
}.

(** No entry of the log is stamped later than now. *)
Definition timely s : Prop :=
  forall st, In st (sys_log s) -> (at_time st <= sys_now s)%Q.

(** Caller [i] received a response at [t1] and its cooldown sleep is still
    ahead of it or under way. *)
Definition cooling (t1 : Q) (tk : task A) : Prop :=
  match tk with
  | Ready (AsyncioSleep d _) => d = cooldown
  | Sleeping until _ => (t1 + cooldown <= until)%Q
  | _ => False
  end.

Definition owes s (t1 : Q) (i : nat) : Prop :=
  sys_lock s = Some i
  /\ exists tk, sys_tasks s !! i = Some tk /\ cooling t1 tk.

(** Whoever received a response has slept its cooldown or still holds the
    lock with the cooldown ahead. *)
Record cooled s : Prop := Cooled {
  cl_debt : forall t1 i resp,
    logged (sys_log s) t1 i (Received (inr resp)) ->
    (t1 + cooldown <= sys_now s)%Q \/ owes s t1 i;
  cl_spaced : spaced_after_response cooldown (sys_log s)
}.

(** What serialization means for a state of the system: at most one
    request is in flight, and it is the lock holder's; at most one caller is
    between its acquire and its release; every caller has acquired at most
    once, and exactly once (and released once) when it has finished; a read
    is sent at least [cooldown] after any response another caller
    received. *)
Definition serialized s : Prop :=
  (forall i j tki tkj,
     sys_tasks s !! i = Some tki -> sys_tasks s !! j = Some tkj ->
     in_flight tki = true -> in_flight tkj = true -> i = j)
  /\ (forall i tk,
       sys_tasks s !! i = Some tk -> in_flight tk = true ->
       sys_lock s = Some i)
  /\ (forall i j,
       phase_of (sys_log s) i = Holding ->
       phase_of (sys_log s) j = Holding -> i = j)
  /\ (forall i,
       (count_by is_acquire i (sys_log s) <= 1)%nat
       /\ forall tk,
            sys_tasks s !! i = Some tk -> finished tk = true ->
            count_by is_acquire i (sys_log s) = 1%nat
            /\ count_by is_release i (sys_log s) = 1%nat)
  /\ spaced_after_response cooldown (sys_log s).

End Invariants.

(** ** Further vocabulary *)

(** The unit that [_decode_response] copies from a definition: its [unit]
    attribute when that is neither missing, nor callable, nor a dict. *)
Definition static_unit {Value : Type} (d : RegisterDefinition Value)
  : option string :=
  match RegisterDefinition.unit d with
  | StaticUnit u => u
  | _ => None
  end.

Definition is_lock_event (e : event) : bool :=
  match e with LockAcquire | LockRelease => true | _ => false end.

(** A trace that leaves the lock as it found it: nothing at all, or one
    acquire, events that are no lock events, one release. *)
Definition lock_balanced (tr : list event) : Prop :=
  tr = []
  \/ exists body,
       Forall (fun e => is_lock_event e = false) body
       /\ tr = LockAcquire :: body ++ [LockRelease].

(** Neighbours [i], [i + 1] of a list of definitions do not overlap. *)
Definition pair_fine {Value : Type} (regs : list (RegisterDefinition Value))
    (i : nat) : Prop :=
  forall p q, regs !! i = Some p -> regs !! S i = Some q ->
    RegisterDefinition.register p + RegisterDefinition.length p
    <= RegisterDefinition.register q.

(** The lock is held by a caller that is inside its guarded section. *)
Definition lock_owned {T A : Type} (s : system T A) : Prop :=
  forall i, sys_lock s = Some i ->
    phase_of (sys_log s) i = Holding /\ (i < length (sys_tasks s))%nat.

(** A coroutine that does nothing to be seen outside its guarded section:
    before the acquire and after the release it neither sends nor sleeps. *)
Fixpoint quiet {A : Type} (ph : phase) (p : prog A) : Prop :=
  match p with
  | Return _ | Raise _ => True
  | Connected k => forall b, quiet ph (k b)
  | ReadHoldingRegisters _ _ _ _ k =>
      ph = Holding /\ forall r, quiet Holding (k r)
  | AsyncioSleep _ k => ph = Holding /\ quiet Holding k
  | Acquire k => ph = Before /\ quiet Holding k
  | Release k => ph = Holding /\ quiet After k
  end.

Definition task_quiet {A : Type} (ph : phase) (tk : task A) : Prop :=
  match tk with
  | Ready p => quiet ph p
  | Sleeping _ k => ph = Holding /\ quiet Holding k
  | InFlight _ _ _ _ k => ph = Holding /\ forall r, quiet Holding (k r)
  end.

(** Any two neighbours in the log are entries of the same caller, or the
    older one is a release and the newer one an acquire: the log is a
    sequence of whole guarded sections, one after the other. *)
Fixpoint contiguous (log : list stamped) : Prop :=
  match log with
  | newer :: (older :: _) as log' =>
      (by_task newer = by_task older
       \/ (what older = Did LockRelease /\ what newer = Did LockAcquire))
      /\ contiguous log'
  | _ => True
  end.

(** The lock is free when nothing has happened yet or when the latest entry
    is a release; otherwise it is with the caller of the latest entry. *)
Definition latest_owns {T A : Type} (s : system T A) : Prop :=
  match sys_log s with
  | [] => sys_lock s = None
  | st :: _ =>
      if is_release (what st) then sys_lock s = None
      else sys_lock s = Some (by_task st)
  end.

(** Every caller is quiet outside its section, the latest entry tells who
    has the lock, and the log is a sequence of whole sections. *)
Record sectioned {T A : Type} (s : system T A) : Prop := Sectioned {
  sc_tasks : forall i tk,
    sys_tasks s !! i = Some tk -> task_quiet (phase_of (sys_log s) i) tk;
  sc_latest : latest_owns s;
  sc_log : contiguous (sys_log s)
}.

(** * A scripted transport, a small schema and two callers, for the examples *)

(** The client answers the next reads from [script]; once the script is
    used up every read times out. *)
Record mock : Type := {
  mock_connected : bool;
  script : list (exn + response)
}.

#[export] Instance mock_transport : Transport mock := {
  connected m := mock_connected m;
  read_holding_registers m _ _ _ _ :=
    match script m with
    | [] => (inl TimeoutError, m)
    | r :: rest => (r, {| mock_connected := mock_connected m; script := rest |})
    end
}.

(** [decoder.decode_16bit_uint()] and [decoder.decode_32bit_uint()], big
    endian; they raise [struct.error] when the payload is too short. *)
Fixpoint be_uint (bytes : list Z) : Z :=
  match bytes with
  | [] => 0
  | b :: bytes' => b * 256 ^ Z.of_nat (length bytes') + be_uint bytes'
  end.

Definition decode_uint (size : nat) (decoder : BinaryPayloadDecoder)
  : exn + (Z * BinaryPayloadDecoder) :=
  let handle :=
    firstn size (skipn (Z.to_nat (pointer decoder)) (payload decoder)) in
  if (length handle =? size)%nat
  then inr (be_uint handle, skip_bytes decoder (Z.of_nat size))
  else inl (OtherException "struct.error").

Definition U16 (register : Z) (unit : unit_attr) : RegisterDefinition Z :=
  {| RegisterDefinition.register := register;
     RegisterDefinition.length := 1;
     RegisterDefinition.unit := unit;
     RegisterDefinition.decode := fun decoder _ => decode_uint 2 decoder |}.

Definition U32 (register : Z) (unit : unit_attr) : RegisterDefinition Z :=
  {| RegisterDefinition.register := register;
     RegisterDefinition.length := 2;
     RegisterDefinition.unit := unit;
     RegisterDefinition.decode := fun decoder _ => decode_uint 4 decoder |}.

(** [A] at offset 0 (1 word), [B] at offset 1 (2 words), [C] at offset 5
    (1 word), [D] at offset 100 (1 word). *)
Definition demo_registers : gmap string (RegisterDefinition Z) :=
  <["A" := U16 0 (StaticUnit (Some "V"))]>
  (<["B" := U32 1 (StaticUnit (Some "W"))]>
  (<["C" := U16 5 CallableUnit]>
  (<["D" := U16 100 NoUnitAttr]> ∅))).

Definition demo_session : AsyncHuaweiSolar Z :=
  {| _timeout := DEFAULT_TIMEOUT;
     _cooldown_time := DEFAULT_COOLDOWN_TIME;
     slave := 3;
     time_zone := None;
     battery_type := None |}.

Definition online (script : list (exn + response)) : mock :=
  {| mock_connected := true; script := script |}.
Definition offline : mock := {| mock_connected := false; script := [] |}.

Definition two_callers : list (prog response) :=
  [_read_registers demo_session 0 1 None;
   _read_registers demo_session 5 1 None].

(** Caller 0 reads, cools down for 10 ms and releases; then caller 1 does
    the same. *)
Definition patient_schedule : list choice :=
  [Run 0; Run 0; Run 0; Run 0; Run 0; Tick (1 # 100); Run 0; Run 0;
   Run 1; Run 1; Run 1; Run 1; Run 1; Tick (1 # 100); Run 1; Run 1]%nat.

Definition patient_state : system mock response :=
  default (start (online []) two_callers)
    (exec patient_schedule
       (start (online [inr (Registers [7]); inr (Registers [8])])
          two_callers)).

(** The read of caller 0 fails with [ModbusConnectionException]; caller 0
    releases and caller 1 sends its read, all within the same instant. *)
Definition hasty_schedule : list choice :=
  [Run 0; Run 0; Run 0; Run 0; Run 0; Run 1; Run 1; Run 1]%nat.

Definition hasty_state : system mock response :=
  default (start (online []) two_callers)
    (exec hasty_schedule
       (start (online [inl ModbusConnectionException; inr (Registers [8])])
          two_callers)).

#[export] Instance mock_stoppable : Stoppable mock := {
  client_stop m := (None, {| mock_connected := false; script := script m |})
}.

(** A client whose connection drops: it lets [reads_left] more reads time
    out and then reports itself disconnected. *)
Record fading : Type := { reads_left : nat }.

#[export] Instance fading_transport : Transport fading := {
  connected f := negb (reads_left f =? 0)%nat;
  read_holding_registers f _ _ _ _ :=
    (inl TimeoutError, {| reads_left := pred (reads_left f) |})
}.

(** * Properties *)

(** ** Running sequenced and guarded coroutines *)

Section RunFacts.

Context {T : Type} `{Transport T}.

Lemma run_bind {A B : Type} (p : prog A) (f : A -> prog B) (c : T) :
  run (bind p f) c =
  match result (run p c) with
  | inl e => Outcome (inl e) (client (run p c)) (trace (run p c))
  | inr a =>
      let o := run (f a) (client (run p c)) in
      Outcome (result o) (client o) (trace (run p c) ++ trace o)
  end.
Proof.
  revert c.
  induction p as [a|e|k IH|a n u t k IH|s k IH|k IH|k IH]; intros c; simpl.
  - by destruct (run (f a) c).
  - reflexivity.
  - apply IH.
  - destruct (read_holding_registers c a n u t) as [r c'].
    rewrite IH. unfold emit; simpl. by destruct (result (run (k r) c')).
  - rewrite IH. unfold emit; simpl. by destruct (result (run k c)).
  - rewrite IH. unfold emit; simpl. by destruct (result (run k c)).
  - rewrite IH. unfold emit; simpl. by destruct (result (run k c)).
Qed.

Lemma run_catch {A : Type} (p : prog A) (h : exn -> prog A) (c : T) :
  run (catch p h) c =
  match result (run p c) with
  | inr a => Outcome (inr a) (client (run p c)) (trace (run p c))
  | inl e =>
      let o := run (h e) (client (run p c)) in
      Outcome (result o) (client o) (trace (run p c) ++ trace o)
  end.
Proof.
  revert c.
  induction p as [a|e|k IH|a n u t k IH|s k IH|k IH|k IH]; intros c; simpl.
  - reflexivity.
  - by destruct (run (h e) c).
  - apply IH.
  - destruct (read_holding_registers c a n u t) as [r c'].
    rewrite IH. unfold emit; simpl. by destruct (result (run (k r) c')).
  - rewrite IH. unfold emit; simpl. by destruct (result (run k c)).
  - rewrite IH. unfold emit; simpl. by destruct (result (run k c)).
  - rewrite IH. unfold emit; simpl. by destruct (result (run k c)).
Qed.

Lemma run_async_with_lock {A : Type} (body : prog A) (c : T) :
  run (async_with_lock body) c =
  Outcome (result (run body c)) (client (run body c))
          (LockAcquire :: trace (run body c) ++ [LockRelease]).
Proof.
  unfold async_with_lock. simpl. rewrite run_catch, run_bind.
  by destruct (result (run body c)).
Qed.

Context {Value : Type}.
Implicit Types self : AsyncHuaweiSolar Value.

(** One turn of the retry loop around [_do_read]. *)
Lemma run_on_exception self register length slave_arg n tries c :
  run (on_exception n tries (_do_read self register length slave_arg)) c =
  let unit := slave_or slave_arg (slave self) in
  let sent := ReadHolding register length unit (_timeout self) in
  if connected c then
    let '(r, c') :=
      read_holding_registers c register length unit (_timeout self) in
    match r with
    | inr resp => Outcome (inr resp) c' [sent]
    | inl TimeoutError =>
        match n with
        | O =>
            Outcome (inl (ReadException (FailedAfterTries (S tries)))) c'
                    [sent]
        | S n' =>
            emit sent
              (emit (Sleep (inject_Z DEFAULT_WAIT))
                 (run (on_exception n' (S tries)
                         (_do_read self register length slave_arg)) c'))
        end
    | inl ModbusConnectionException =>
        Outcome (inl (ReadException CouldNotRead)) c' [sent]
    | inl e => Outcome (inl e) c' [sent]
    end
  else Outcome (inl ConnectionException) c [].
Proof.
  destruct n; simpl; destruct (connected c); simpl; try reflexivity;
    destruct (read_holding_registers c register length
                (slave_or slave_arg (slave self)) (_timeout self))
      as [[[]|resp] c']; reflexivity.
Qed.

(** The guarded section of [_read_registers]: the cooldown sleep is
    reached only when the retry loop returned. *)
Lemma run_read_registers self register length slave_arg c :
  run (_read_registers self register length slave_arg) c =
  let o := run (on_exception (max_tries - 1) 0
                  (_do_read self register length slave_arg)) c in
  Outcome (result o) (client o)
    (LockAcquire :: trace o ++
       match result o with
       | inr _ => [Sleep (_cooldown_time self); LockRelease]
       | inl _ => [LockRelease]
       end).
Proof.
  unfold _read_registers. rewrite run_async_with_lock, run_bind.
  cbv zeta.
  destruct (result (run (on_exception _ _ _) c)) as [e|resp] eqn:E; simpl.
  - reflexivity.
  - by rewrite <- app_assoc.
Qed.

End RunFacts.

(** ** The request planner *)

Section Planner.

Context {Value : Type}.
Implicit Types prev cur first : RegisterDefinition Value.
Implicit Types rest regs : list (RegisterDefinition Value).

(** The loop accepts exactly the lists without an overlapping pair. *)
Lemma check_registers_None prev rest :
  check_registers prev rest = None <-> ~ overlapping (prev :: rest).
Proof.
  revert prev. induction rest as [|cur rest IH]; intros prev; simpl.
  - split; [|done]. intros _ (i & p & q & _ & Hq & _).
    by destruct i.
  - destruct (Z.gtb_spec
                (RegisterDefinition.register prev
                 + RegisterDefinition.length prev)
                (RegisterDefinition.register cur)) as [Hgt|Hle].
    + split; [done|]. intros Hno. exfalso. apply Hno.
      exists 0%nat, prev, cur. repeat split; [done..|lia].
    + destruct (Z.gtb_spec
                  (RegisterDefinition.register prev
                   + RegisterDefinition.length prev
                   - RegisterDefinition.register cur) 64) as [Hbig|_];
        [lia|].
      rewrite IH. split.
      * intros Hno (i & p & q & Hp & Hq & Hpq).
        destruct i as [|i].
        -- simpl in Hp, Hq. simplify_eq. lia.
        -- apply Hno. by exists i, p, q.
      * intros Hno (i & p & q & Hp & Hq & Hpq).
        apply Hno. by exists (S i), p, q.
Qed.

(** The test [register_distance > 64] never fires: when the loop reaches
    it, [register_distance] is at most 0. *)
Lemma check_registers_never_gap prev rest :
  check_registers prev rest <> Some GapTooLarge.
Proof.
  revert prev. induction rest as [|cur rest IH]; intros prev; simpl.
  - done.
  - destruct (Z.gtb_spec
                (RegisterDefinition.register prev
                 + RegisterDefinition.length prev)
                (RegisterDefinition.register cur)) as [Hgt|Hle]; [done|].
    destruct (Z.gtb_spec
                (RegisterDefinition.register prev
                 + RegisterDefinition.length prev
                 - RegisterDefinition.register cur) 64) as [Hbig|_];
      [lia|apply IH].
Qed.

Variable REGISTERS : gmap string (RegisterDefinition Value).

Lemma resolve_lookup names regs i name :
  resolve REGISTERS names = Some regs ->
  names !! i = Some name -> REGISTERS !! name = regs !! i.
Proof.
  unfold resolve. rewrite mapM_Some. intros HF Hi.
  destruct (Forall2_lookup_l _ _ _ _ _ HF Hi) as (r & Hr & Hnr).
  by rewrite Hr.
Qed.

Lemma resolve_length names regs :
  resolve REGISTERS names = Some regs -> length regs = length names.
Proof.
  unfold resolve. rewrite mapM_Some. intros HF.
  symmetry. by eapply Forall2_length.
Qed.

Lemma resolve_unknown names name :
  name ∈ names -> REGISTERS !! name = None ->
  resolve REGISTERS names = None.
Proof.
  intros Hin Hnone. unfold resolve. apply mapM_None, Exists_exists.
  by exists name.
Qed.

Context {T : Type} `{Transport T}.

(** A request that the planner refuses leaves the client and the lock
    alone. *)
Lemma get_multiple_refused self names slave_arg (c : T) :
  names = [] \/ resolve REGISTERS names = None \/
  (exists regs, resolve REGISTERS names = Some regs /\ overlapping regs) ->
  exists why,
    run (get_multiple REGISTERS self names slave_arg) c =
    Outcome (inl (ValueError why)) c [].
Proof.
  intros [->|Hbad].
  { by eexists. }
  unfold get_multiple. destruct names as [|name names]; [by eexists|].
  destruct Hbad as [->|(regs & -> & Hover)]; [by eexists|].
  destruct regs as [|first rest]; [by eexists|].
  destruct (check_registers first rest) as [why|] eqn:Hcheck;
    [by eexists|].
  apply check_registers_None in Hcheck. contradiction.
Qed.

End Planner.

Section Accepted.

Context {Value : Type} {T : Type} `{Transport T}.
Variable REGISTERS : gmap string (RegisterDefinition Value).
Implicit Types self : AsyncHuaweiSolar Value.

(** An accepted request is one guarded read followed by decoding; the
    decoding has no effect on the client, the lock or the clock. *)
Lemma run_get_multiple self names slave_arg first rest (c : T) :
  resolve REGISTERS names = Some (first :: rest) ->
  ~ overlapping (first :: rest) ->
  run (get_multiple REGISTERS self names slave_arg) c =
  let o := run (_read_registers self (RegisterDefinition.register first)
                  (total_length first rest) slave_arg) c in
  Outcome
    match result o with
    | inl e => inl e
    | inr (ExceptionResponse code) =>
        inl (ReadException
               (GotError (RegisterDefinition.register first)
                  (total_length first rest) code))
    | inr (Registers registers) =>
        match fromRegisters registers with
        | inl e => inl e
        | inr decoder => decode_all self first rest decoder
        end
    end
    (client o) (trace o).
Proof.
  intros Hres Hok. apply check_registers_None in Hok.
  unfold get_multiple. destruct names as [|name names]; [done|].
  rewrite Hres, Hok. fold (total_length first rest).
  rewrite run_bind. cbv zeta.
  destruct (result (run (_read_registers _ _ _ _) c))
    as [e|[registers|code]]; simpl; [done| |by rewrite app_nil_r].
  destruct (fromRegisters registers) as [e|decoder];
    simpl; [by rewrite app_nil_r|].
  destruct (decode_all self first rest decoder);
    simpl; by rewrite app_nil_r.
Qed.

End Accepted.

(** ** What reaches the wire *)

Section Wire.

Context {Value : Type} {T : Type} `{Transport T}.
Implicit Types self : AsyncHuaweiSolar Value.

Lemma wire_reads_cons e tr :
  wire_reads (e :: tr) = ((if is_read e then 1 else 0) + wire_reads tr)%nat.
Proof.
  unfold wire_reads. rewrite filter_cons. by destruct e.
Qed.

Lemma wire_reads_app tr1 tr2 :
  wire_reads (tr1 ++ tr2) = (wire_reads tr1 + wire_reads tr2)%nat.
Proof. unfold wire_reads. by rewrite filter_app, length_app. Qed.

(** The retry loop only ever sends the one request and only ever sleeps
    the constant interval; with [n] retries left it sends at most [n + 1]
    times, and at least once when the client is connected. *)
Lemma on_exception_trace self register length slave_arg n tries (c : T) :
  let o := run (on_exception n tries
                  (_do_read self register length slave_arg)) c in
  Forall (fun e => e = request self register length slave_arg
                   \/ e = Sleep (inject_Z DEFAULT_WAIT)) (trace o)
  /\ (wire_reads (trace o) <= S n)%nat
  /\ (connected c = true -> (1 <= wire_reads (trace o))%nat).
Proof.
  cbv zeta. revert tries c.
  induction n as [|n IH]; intros tries c; rewrite run_on_exception;
    cbv zeta; fold (request self register length slave_arg);
    destruct (connected c) eqn:Hc; simpl;
    try (split; [constructor|split; [unfold wire_reads; simpl; lia|done]]);
    destruct (read_holding_registers c register length _ _)
      as [[[]|resp] c']; simpl;
    try (split; [repeat constructor; by left
                |split; intros; rewrite wire_reads_cons; simpl;
                 unfold wire_reads; simpl; lia]).
  destruct (IH (S tries) c') as (IH1 & IH2 & _).
  split; [|split; intros; rewrite !wire_reads_cons; simpl; lia].
  constructor; [by left|]. constructor; [by right|done].
Qed.

(** The same for the whole guarded section. *)
Lemma read_registers_trace self register length slave_arg (c : T) :
  let tr := trace (run (_read_registers self register length slave_arg) c)
  in
  Forall (fun e => is_read e = true ->
                   e = request self register length slave_arg) tr
  /\ (wire_reads tr <= max_tries)%nat
  /\ (connected c = true -> (1 <= wire_reads tr)%nat).
Proof.
  cbv zeta. rewrite run_read_registers. cbv zeta. cbn [trace].
  destruct (on_exception_trace self register length slave_arg
              (max_tries - 1) 0 c) as (HF & Hle & Hge).
  set (o := run (on_exception _ _ _) c) in *.
  assert (Htail : forall tl : list event,
            Forall (fun e => is_read e = false) tl ->
            wire_reads (LockAcquire :: trace o ++ tl) = wire_reads (trace o)).
  { intros tl Htl. rewrite wire_reads_cons, wire_reads_app. simpl.
    assert (wire_reads tl = 0%nat) as ->; [|lia].
    unfold wire_reads. induction Htl as [|e tl He _ IH]; [done|].
    rewrite filter_cons. case_decide; [congruence|done]. }
  split.
  - constructor; [done|]. apply Forall_app. split.
    + eapply Forall_impl; [exact HF|]. by intros e [->| ->].
    + destruct (result o); repeat constructor; done.
  - rewrite Htail; [|destruct (result o); repeat constructor].
    split; [exact Hle|exact Hge].
Qed.

(** A connected client is sent the request. *)
Lemma read_registers_sends self register length slave_arg (c : T) :
  connected c = true ->
  In (request self register length slave_arg)
     (trace (run (_read_registers self register length slave_arg) c)).
Proof.
  intros Hc. rewrite run_read_registers. cbv zeta. cbn [trace].
  right. apply in_or_app. left.
  rewrite run_on_exception. cbv zeta. rewrite Hc.
  fold (request self register length slave_arg).
  destruct (read_holding_registers c register length _ _)
    as [[[]|resp] c']; by left.
Qed.

Variable REGISTERS : gmap string (RegisterDefinition Value).

(** Either the planner refuses and nothing happens, or the trace is that
    of the one guarded read. *)
Lemma get_multiple_trace self names slave_arg (c : T) :
  trace (run (get_multiple REGISTERS self names slave_arg) c) = []
  \/ exists first rest,
       resolve REGISTERS names = Some (first :: rest)
       /\ ~ overlapping (first :: rest)
       /\ trace (run (get_multiple REGISTERS self names slave_arg) c) =
          trace (run (_read_registers self
                        (RegisterDefinition.register first)
                        (total_length first rest) slave_arg) c).
Proof.
  destruct (resolve REGISTERS names) as [[|first rest]|] eqn:Hres.
  - left. unfold get_multiple. rewrite Hres. by destruct names.
  - destruct (check_registers first rest) as [why|] eqn:Hcheck.
    + left. unfold get_multiple. rewrite Hres, Hcheck. by destruct names.
    + apply check_registers_None in Hcheck. right. exists first, rest.
      repeat split; [done|].
      by rewrite (run_get_multiple REGISTERS self names slave_arg
                    first rest c Hres Hcheck).
  - left. unfold get_multiple. rewrite Hres. by destruct names.
Qed.

Lemma get_trace self name slave_arg (c : T) :
  trace (run (get REGISTERS self name slave_arg) c) =
  trace (run (get_multiple REGISTERS self [name] slave_arg) c).
Proof.
  unfold get. rewrite run_bind.
  destruct (result (run (get_multiple _ _ _ _) c)) as [e|[|r rs]];
    simpl; by rewrite ?app_nil_r.
Qed.

End Wire.

(** ** Timeouts and the retry loop *)

Section Retry.

Context {Value : Type} {T : Type} `{Transport T}.
Implicit Types self : AsyncHuaweiSolar Value.

Lemma after_timeouts_last k (c c' : T) a n u t :
  after_timeouts (S k) c a n u t = Some c' <->
  exists ck, after_timeouts k c a n u t = Some ck
             /\ after_timeouts 1 ck a n u t = Some c'.
Proof.
  revert c. induction k as [|k IH]; intros c.
  - split; [intros Hc; by exists c|by intros (ck & [= <-] & Hc)].
  - change (after_timeouts (S (S k)) c a n u t)
      with (if connected c then
              match read_holding_registers c a n u t with
              | (inl TimeoutError, c1) => after_timeouts (S k) c1 a n u t
              | _ => None
              end
            else None).
    change (after_timeouts (S k) c a n u t)
      with (if connected c then
              match read_holding_registers c a n u t with
              | (inl TimeoutError, c1) => after_timeouts k c1 a n u t
              | _ => None
              end
            else None).
    destruct (connected c); [|by split; [|intros (? & ? & ?)]].
    destruct (read_holding_registers c a n u t) as [[[]|resp] c1];
      try (by split; [|intros (? & ? & ?)]).
    apply IH.
Qed.

(** After [k] timeouts the loop has sent [k] requests, slept the constant
    interval after each, and goes on with [k] retries fewer. *)
Lemma on_exception_timeouts self register length slave_arg k n tries
    (c ck : T) :
  after_timeouts k c register length
    (slave_or slave_arg (slave self)) (_timeout self) = Some ck ->
  run (on_exception (k + n) tries
         (_do_read self register length slave_arg)) c =
  let o := run (on_exception n (k + tries)
                  (_do_read self register length slave_arg)) ck in
  Outcome (result o) (client o)
    (backoff_rounds (request self register length slave_arg) k ++ trace o).
Proof.
  revert tries c. induction k as [|k IH]; intros tries c Hk.
  - injection Hk as ->. simpl. by destruct (run _ ck).
  - simpl in Hk. rewrite run_on_exception. cbv zeta.
    destruct (connected c); [|done].
    destruct (read_holding_registers c register length _ _)
      as [[[]|resp] c1]; try done.
    cbn [Nat.add]. rewrite (IH (S tries) c1 Hk).
    replace (k + S tries)%nat with (S k + tries)%nat by lia.
    reflexivity.
Qed.

(** The attempt that does not time out ends the loop. *)
Lemma on_exception_settled self register length slave_arg n tries
    (c : T) :
  connected c = true ->
  fst (read_holding_registers c register length
         (slave_or slave_arg (slave self)) (_timeout self))
    <> inl TimeoutError ->
  run (on_exception n tries (_do_read self register length slave_arg)) c =
  let '(r, c') :=
    read_holding_registers c register length
      (slave_or slave_arg (slave self)) (_timeout self) in
  Outcome
    match r with
    | inl ModbusConnectionException => inl (ReadException CouldNotRead)
    | _ => r
    end
    c' [request self register length slave_arg].
Proof.
  intros Hc Hr. rewrite run_on_exception. cbv zeta. rewrite Hc.
  destruct (read_holding_registers c register length _ _)
    as [[[]|resp] c']; simpl in *; done.
Qed.

End Retry.

(** * Main results *)

(** C3: a request that is empty, names a register the schema does not know,
    or resolves to definitions with some
    [resolved[i-1].offset + resolved[i-1].length > resolved[i].offset],
    fails with [ValueError] (the spec's [InvalidRequest]); the client is left
    as it was and nothing at all happens on the lock or the wire. *)
Theorem C3_invalid_request_rejected {Value T : Type} `{Transport T}
    (REGISTERS : gmap string (RegisterDefinition Value))
    (self : AsyncHuaweiSolar Value) (names : list string)
    (slave_arg : option Z) (c : T) :
  names = []
  \/ (exists name, name ∈ names /\ REGISTERS !! name = None)
  \/ (exists regs, resolve REGISTERS names = Some regs /\ overlapping regs) ->
  exists why,
    run (get_multiple REGISTERS self names slave_arg) c =
    Outcome (inl (ValueError why)) c []
    /\ wire_reads (trace (run (get_multiple REGISTERS self names slave_arg)
                            c)) = 0%nat.
Proof.
  intros Hbad.
  destruct (get_multiple_refused REGISTERS self names slave_arg c)
    as [why Hwhy].
  - destruct Hbad as [?|[(name & Hin & Hnone)|?]]; [by left| |by right; right].
    right; left. by eapply resolve_unknown.
  - exists why. by rewrite Hwhy.
Qed.

Lemma C3_invalid_request_rejected_witness :
  exists why,
    run (get_multiple demo_registers demo_session ["B"; "A"] None)
        (online [inr (Registers [1; 2; 3])]) =
    Outcome (inl (ValueError why)) (online [inr (Registers [1; 2; 3])]) []
    /\ wire_reads (trace (run (get_multiple demo_registers demo_session
                                 ["B"; "A"] None)
                            (online [inr (Registers [1; 2; 3])]))) = 0%nat.
Proof.
  apply (C3_invalid_request_rejected demo_registers demo_session
           ["B"; "A"] None (online [inr (Registers [1; 2; 3])])).
  right; right.
  exists [U32 1 (StaticUnit (Some "W")); U16 0 (StaticUnit (Some "V"))].
  split; [vm_compute; reflexivity|].
  exists 0%nat, (U32 1 (StaticUnit (Some "W"))),
         (U16 0 (StaticUnit (Some "V"))).
  split; [reflexivity|]. split; [reflexivity|]. simpl. lia.
Defined.

(** The three refusals, one by one. *)
Example refuses_empty :
  run (get_multiple demo_registers demo_session [] None) (online []) =
  Outcome (inl (ValueError ExpectedAtLeastOne)) (online []) [].
Proof. reflexivity. Qed.

Example refuses_unknown :
  run (get_multiple demo_registers demo_session ["A"; "Z"] None) (online []) =
  Outcome (inl (ValueError DidNotRecognize)) (online []) [].
Proof. vm_compute. reflexivity. Qed.

Example refuses_out_of_order :
  run (get_multiple demo_registers demo_session ["B"; "A"] None) (online []) =
  Outcome (inl (ValueError (NotMonotonic 1 2 0))) (online []) [].
Proof. vm_compute. reflexivity. Qed.

(** C1: registers [A] (offset 0, 1 word) and [D] (offset 100, 1 word) are 99
    words apart, more than the 64 the planner means to allow.  The request
    is not refused: 101 words are read from the wire and both values are
    returned.  [register_distance] is computed as
    [prev.register + prev.length - cur.register], the gap with its sign
    turned, so the test [register_distance > 64] cannot succeed after the
    ordering test (lemma [check_registers_never_gap]). *)
Theorem C1_wide_gap_is_not_rejected :
  resolve demo_registers ["A"; "D"] =
    Some [U16 0 (StaticUnit (Some "V")); U16 100 NoUnitAttr]
  /\ gap_exceeds 64 [U16 0 (StaticUnit (Some "V")); U16 100 NoUnitAttr]
  /\ run (get_multiple demo_registers demo_session ["A"; "D"] None)
         (online [inr (Registers (repeat 7 101))]) =
     Outcome (inr [ {| value := 7; unit := Some "V" |};
                    {| value := 7; unit := None |} ])
             (online [])
             [LockAcquire; ReadHolding 0 101 3 5;
              Sleep DEFAULT_COOLDOWN_TIME; LockRelease].
Proof.
  split; [vm_compute; reflexivity|]. split; [|vm_compute; reflexivity].
  exists 0%nat, (U16 0 (StaticUnit (Some "V"))), (U16 100 NoUnitAttr).
  split; [reflexivity|]. split; [reflexivity|]. simpl. lia.
Qed.

(** No request at all is refused for its gaps: whenever the resolved
    definitions do not overlap, the call goes on to take the lock. *)
Lemma gap_never_refused {Value T : Type} `{Transport T}
    (REGISTERS : gmap string (RegisterDefinition Value))
    (self : AsyncHuaweiSolar Value) (names : list string)
    (slave_arg : option Z) (c : T) first rest :
  resolve REGISTERS names = Some (first :: rest) ->
  ~ overlapping (first :: rest) ->
  exists tl,
    trace (run (get_multiple REGISTERS self names slave_arg) c) =
    LockAcquire :: tl.
Proof.
  intros Hres Hok.
  rewrite (run_get_multiple REGISTERS self names slave_arg first rest c
             Hres Hok).
  cbv zeta. cbn [trace]. rewrite run_read_registers. cbv zeta. cbn [trace].
  by eexists.
Qed.

(** C5: when the client does not report itself connected, the read raises
    [ConnectionException] at once: the lock is taken and given back, nothing
    is sent, nothing is retried and no time is slept.  [get] of a known
    register fails the same way. *)
Theorem C5_not_connected_fails_at_once {Value T : Type} `{Transport T}
    (REGISTERS : gmap string (RegisterDefinition Value))
    (self : AsyncHuaweiSolar Value) (register length : Z)
    (slave_arg : option Z) (c : T) :
  connected c = false ->
  let o := run (_read_registers self register length slave_arg) c in
  o = Outcome (inl ConnectionException) c [LockAcquire; LockRelease]
  /\ wire_reads (trace o) = 0%nat
  /\ elapsed (trace o) = 0%Q
  /\ (forall name, is_Some (REGISTERS !! name) ->
        run (get REGISTERS self name slave_arg) c =
        Outcome (inl ConnectionException) c [LockAcquire; LockRelease]).
Proof.
  intros Hc.
  assert (Hrr : forall register length,
             run (_read_registers self register length slave_arg) c =
             Outcome (inl ConnectionException) c [LockAcquire; LockRelease]).
  { intros r l. rewrite run_read_registers, run_on_exception.
    cbv zeta. by rewrite Hc. }
  cbv zeta. rewrite Hrr. repeat split.
  intros name [reg Hreg]. unfold get. rewrite run_bind.
  assert (Hres : resolve REGISTERS [name] = Some [reg]).
  { unfold resolve. apply mapM_Some. by repeat constructor. }
  assert (Hok : ~ overlapping [reg]).
  { intros (i & p & q & _ & Hq & _). by destruct i. }
  rewrite (run_get_multiple REGISTERS self [name] slave_arg reg [] c Hres Hok).
  cbv zeta. by rewrite Hrr.
Qed.

Lemma C5_not_connected_fails_at_once_witness :
  let o := run (_read_registers demo_session 0 1 None) offline in
  o = Outcome (inl ConnectionException) offline [LockAcquire; LockRelease]
  /\ wire_reads (trace o) = 0%nat
  /\ elapsed (trace o) = 0%Q
  /\ (forall name, is_Some (demo_registers !! name) ->
        run (get demo_registers demo_session name None) offline =
        Outcome (inl ConnectionException) offline [LockAcquire; LockRelease]).
Proof.
  apply (C5_not_connected_fails_at_once demo_registers demo_session 0 1 None
           offline).
  reflexivity.
Defined.

(** C4: a read that times out is sent again after sleeping the constant
    interval [DEFAULT_WAIT] (no jitter).  No run sends more than 5 requests.
    After [k < 5] timeouts the trace so far is [k] rounds of "request, sleep
    [DEFAULT_WAIT]", and a further request follows if the client is still
    connected.  After 5 timeouts in a row the read fails with
    [ReadException] reporting 5 tries, having sent 5 requests and slept 4
    times. *)
Theorem C4_timeouts_retried_with_constant_backoff {Value T : Type}
    `{Transport T} (self : AsyncHuaweiSolar Value) (register length : Z)
    (slave_arg : option Z) (k : nat) (c ck : T) :
  after_timeouts k c register length
    (slave_or slave_arg (slave self)) (_timeout self) = Some ck ->
  let sent := ReadHolding register length
                (slave_or slave_arg (slave self)) (_timeout self) in
  let o := run (_read_registers self register length slave_arg) c in
  (wire_reads (trace o) <= 5)%nat
  /\ ((k < 5)%nat ->
      exists tl,
        trace o = LockAcquire :: backoff_rounds sent k ++ tl
        /\ (connected ck = true -> exists tl', tl = sent :: tl'))
  /\ (k = 5%nat ->
      o = Outcome (inl (ReadException (FailedAfterTries 5))) ck
            [LockAcquire;
             sent; Sleep (inject_Z DEFAULT_WAIT);
             sent; Sleep (inject_Z DEFAULT_WAIT);
             sent; Sleep (inject_Z DEFAULT_WAIT);
             sent; Sleep (inject_Z DEFAULT_WAIT);
             sent; LockRelease]).
Proof.
  intros Hk sent o.
  split; [apply (read_registers_trace self register length slave_arg c)|].
  subst o. rewrite run_read_registers. cbv zeta. split.
  - intros Hlt.
    replace (max_tries - 1)%nat with (k + (4 - k))%nat
      by (unfold max_tries; lia).
    rewrite (on_exception_timeouts self register length slave_arg
               k (4 - k) 0 c ck Hk).
    cbv zeta. cbn [trace result]. eexists. split.
    + rewrite <- app_assoc. reflexivity.
    + intros Hc. rewrite run_on_exception. cbv zeta. rewrite Hc.
      fold sent.
      destruct (read_holding_registers ck register length _ _)
        as [[[]|resp] c']; try (by eexists).
      destruct (4 - k)%nat; by eexists.
  - intros ->. apply after_timeouts_last in Hk as (c4 & H4 & H5).
    change (max_tries - 1)%nat with (4 + 0)%nat.
    rewrite (on_exception_timeouts self register length slave_arg
               4 0 0 c c4 H4).
    cbv zeta. rewrite run_on_exception. cbv zeta.
    simpl in H5. destruct (connected c4); [|done].
    destruct (read_holding_registers c4 register length _ _)
      as [[[]|resp] c']; try done.
    by injection H5 as ->.
Qed.

Lemma C4_timeouts_retried_with_constant_backoff_witness :
  let sent := ReadHolding 0 1 3 5 in
  let o := run (_read_registers demo_session 0 1 None) (online []) in
  (wire_reads (trace o) <= 5)%nat
  /\ ((5 < 5)%nat ->
      exists tl,
        trace o = LockAcquire :: backoff_rounds sent 5 ++ tl
        /\ (connected (online []) = true -> exists tl', tl = sent :: tl'))
  /\ (5%nat = 5%nat ->
      o = Outcome (inl (ReadException (FailedAfterTries 5))) (online [])
            [LockAcquire;
             sent; Sleep (inject_Z DEFAULT_WAIT);
             sent; Sleep (inject_Z DEFAULT_WAIT);
             sent; Sleep (inject_Z DEFAULT_WAIT);
             sent; Sleep (inject_Z DEFAULT_WAIT);
             sent; LockRelease]).
Proof.
  apply (C4_timeouts_retried_with_constant_backoff demo_session 0 1 None
           5 (online []) (online [])).
  reflexivity.
Defined.

(** Two timeouts, then an answer: three requests, two sleeps of
    [DEFAULT_WAIT], then the cooldown. *)
Example third_attempt_succeeds :
  run (_read_registers demo_session 0 1 None)
      (online [inl TimeoutError; inl TimeoutError; inr (Registers [42])]) =
  Outcome (inr (Registers [42])) (online [])
    [LockAcquire;
     ReadHolding 0 1 3 5; Sleep (inject_Z DEFAULT_WAIT);
     ReadHolding 0 1 3 5; Sleep (inject_Z DEFAULT_WAIT);
     ReadHolding 0 1 3 5; Sleep DEFAULT_COOLDOWN_TIME; LockRelease].
Proof. reflexivity. Qed.

(** C6: an [ExceptionResponse] from the device makes the call fail with
    [ReadException], and a [ModbusConnectionException] raised by the
    transport is turned into [ReadException]; in both cases the request that
    got this answer is the last one sent.  This holds for the first attempt
    ([k = 0]) and for an attempt made after [k] timeouts. *)
Theorem C6_rejections_are_not_retried {Value T : Type} `{Transport T}
    (REGISTERS : gmap string (RegisterDefinition Value))
    (self : AsyncHuaweiSolar Value) (names : list string)
    (slave_arg : option Z) (first : RegisterDefinition Value)
    (rest : list (RegisterDefinition Value)) (k : nat) (c ck c' : T)
    (r : exn + response) :
  resolve REGISTERS names = Some (first :: rest) ->
  ~ overlapping (first :: rest) ->
  let start := RegisterDefinition.register first in
  let count := total_length first rest in
  let sent := ReadHolding start count
                (slave_or slave_arg (slave self)) (_timeout self) in
  (k < 5)%nat ->
  after_timeouts k c start count
    (slave_or slave_arg (slave self)) (_timeout self) = Some ck ->
  connected ck = true ->
  read_holding_registers ck start count
    (slave_or slave_arg (slave self)) (_timeout self) = (r, c') ->
  (forall code, r = inr (ExceptionResponse code) ->
     run (get_multiple REGISTERS self names slave_arg) c =
     Outcome (inl (ReadException (GotError start count code))) c'
       (LockAcquire :: backoff_rounds sent k
          ++ [sent; Sleep (_cooldown_time self); LockRelease]))
  /\ (r = inl ModbusConnectionException ->
      run (get_multiple REGISTERS self names slave_arg) c =
      Outcome (inl (ReadException CouldNotRead)) c'
        (LockAcquire :: backoff_rounds sent k ++ [sent; LockRelease])).
Proof.
  intros Hres Hok start count sent Hlt Hk Hc Hr.
  rewrite (run_get_multiple REGISTERS self names slave_arg first rest c
             Hres Hok).
  fold start count. cbv zeta. rewrite run_read_registers. cbv zeta.
  replace (max_tries - 1)%nat with (k + (4 - k))%nat
    by (unfold max_tries; lia).
  rewrite (on_exception_timeouts self start count slave_arg
             k (4 - k) 0 c ck Hk).
  cbv zeta. fold sent.
  split; [intros code ->|intros ->];
    (rewrite on_exception_settled; [|done|by rewrite Hr]);
    rewrite Hr; cbn [result client trace];
    by rewrite <- app_assoc.
Qed.

Lemma C6_rejections_are_not_retried_witness :
  (forall code,
     @inr exn response (ExceptionResponse 2) = inr (ExceptionResponse code) ->
     run (get_multiple demo_registers demo_session ["A"; "B"] None)
         (online [inl TimeoutError; inr (ExceptionResponse 2)]) =
     Outcome (inl (ReadException (GotError 0 3 code))) (online [])
       (LockAcquire :: backoff_rounds (ReadHolding 0 3 3 5) 1
          ++ [ReadHolding 0 3 3 5; Sleep (_cooldown_time demo_session);
              LockRelease]))
  /\ (@inr exn response (ExceptionResponse 2) = inl ModbusConnectionException ->
      run (get_multiple demo_registers demo_session ["A"; "B"] None)
          (online [inl TimeoutError; inr (ExceptionResponse 2)]) =
      Outcome (inl (ReadException CouldNotRead)) (online [])
        (LockAcquire :: backoff_rounds (ReadHolding 0 3 3 5) 1
           ++ [ReadHolding 0 3 3 5; LockRelease])).
Proof.
  apply (C6_rejections_are_not_retried demo_registers demo_session
           ["A"; "B"] None
           (U16 0 (StaticUnit (Some "V"))) [U32 1 (StaticUnit (Some "W"))]
           1 (online [inl TimeoutError; inr (ExceptionResponse 2)])
           (online [inr (ExceptionResponse 2)]) (online [])
           (inr (ExceptionResponse 2))).
  - vm_compute. reflexivity.
  - intros (i & p & q & Hp & Hq & Hpq).
    destruct i as [|[|i]]; simpl in Hp, Hq; [|done..].
    injection Hp as <-. injection Hq as <-. simpl in Hpq. lia.
  - lia.
  - reflexivity.
  - reflexivity.
  - reflexivity.
Defined.

Example exception_response_not_retried :
  run (get_multiple demo_registers demo_session ["A"; "B"] None)
      (online [inr (ExceptionResponse 2); inr (Registers [1; 2; 3])]) =
  Outcome (inl (ReadException (GotError 0 3 2)))
    (online [inr (Registers [1; 2; 3])])
    [LockAcquire; ReadHolding 0 3 3 5; Sleep DEFAULT_COOLDOWN_TIME;
     LockRelease].
Proof. vm_compute. reflexivity. Qed.

Example connection_failure_not_retried :
  run (get_multiple demo_registers demo_session ["A"; "B"] None)
      (online [inl ModbusConnectionException; inr (Registers [1; 2; 3])]) =
  Outcome (inl (ReadException CouldNotRead))
    (online [inr (Registers [1; 2; 3])])
    [LockAcquire; ReadHolding 0 3 3 5; LockRelease].
Proof. vm_compute. reflexivity. Qed.

(** C7: for a request the planner accepts, every read put on the wire
    starts at the first definition's offset and asks for
    [last.offset + last.length - first.offset] words; a connected client
    gets that read, and when it does not time out it is the only one. *)
Theorem C7_one_contiguous_read {Value T : Type} `{Transport T}
    (REGISTERS : gmap string (RegisterDefinition Value))
    (self : AsyncHuaweiSolar Value) (names : list string)
    (slave_arg : option Z) (first : RegisterDefinition Value)
    (rest : list (RegisterDefinition Value)) (c : T) :
  resolve REGISTERS names = Some (first :: rest) ->
  ~ overlapping (first :: rest) ->
  let last := List.last rest first in
  let sent :=
    ReadHolding (RegisterDefinition.register first)
      (RegisterDefinition.register last + RegisterDefinition.length last
       - RegisterDefinition.register first)
      (slave_or slave_arg (slave self)) (_timeout self) in
  let tr := trace (run (get_multiple REGISTERS self names slave_arg) c) in
  Forall (fun e => is_read e = true -> e = sent) tr
  /\ (connected c = true -> In sent tr)
  /\ (connected c = true ->
      fst (read_holding_registers c (RegisterDefinition.register first)
             (RegisterDefinition.register last + RegisterDefinition.length last
              - RegisterDefinition.register first)
             (slave_or slave_arg (slave self)) (_timeout self))
        <> inl TimeoutError ->
      filter (fun e => is_read e = true) tr = [sent]).
Proof.
  intros Hres Hok last sent tr. subst tr.
  rewrite (run_get_multiple REGISTERS self names slave_arg first rest c
             Hres Hok).
  cbv zeta. cbn [trace]. unfold total_length. fold last.
  set (count := RegisterDefinition.register last
                + RegisterDefinition.length last
                - RegisterDefinition.register first) in *.
  split; [apply (read_registers_trace self _ count slave_arg c)|].
  rewrite run_read_registers. cbv zeta. cbn [trace]. split.
  - intros Hc.
    pose proof (read_registers_sends self (RegisterDefinition.register first)
                  count slave_arg c Hc) as Hin.
    by rewrite run_read_registers in Hin.
  - intros Hc Hr. rewrite on_exception_settled; [|done..].
    destruct (read_holding_registers c _ count _ _) as [[[]|resp] c'];
      reflexivity.
Qed.

Lemma C7_one_contiguous_read_witness :
  let tr := trace (run (get_multiple demo_registers demo_session
                          ["A"; "B"] None)
                     (online [inr (Registers [1; 2; 3])])) in
  Forall (fun e => is_read e = true -> e = ReadHolding 0 (1 + 2 - 0) 3 5) tr
  /\ (connected (online [inr (Registers [1; 2; 3])]) = true ->
      In (ReadHolding 0 (1 + 2 - 0) 3 5) tr)
  /\ (connected (online [inr (Registers [1; 2; 3])]) = true ->
      fst (read_holding_registers (online [inr (Registers [1; 2; 3])])
             0 (1 + 2 - 0) 3 5) <> inl TimeoutError ->
      filter (fun e => is_read e = true) tr = [ReadHolding 0 (1 + 2 - 0) 3 5]).
Proof.
  apply (C7_one_contiguous_read demo_registers demo_session ["A"; "B"] None
           (U16 0 (StaticUnit (Some "V"))) [U32 1 (StaticUnit (Some "W"))]
           (online [inr (Registers [1; 2; 3])])).
  - vm_compute. reflexivity.
  - intros (i & p & q & Hp & Hq & Hpq).
    destruct i as [|[|i]]; simpl in Hp, Hq; [|done..].
    injection Hp as <-. injection Hq as <-. simpl in Hpq. lia.
Defined.

(** The spec's scenario: [A] at 0 (1 word), [B] at 1 (2 words); asking for
    [A, B] is one read of 3 words from offset 0. *)
Example reads_A_B :
  run (get_multiple demo_registers demo_session ["A"; "B"] None)
      (online [inr (Registers [1; 2; 3])]) =
  Outcome (inr [ {| value := 1; unit := Some "V" |};
                 {| value := 131075; unit := Some "W" |} ])
    (online [])
    [LockAcquire; ReadHolding 0 3 3 5; Sleep DEFAULT_COOLDOWN_TIME;
     LockRelease].
Proof. vm_compute. reflexivity. Qed.

(** ** The per-call slave *)

Lemma slave_or_zero (self_slave : Z) :
  slave_or (Some 0) self_slave = self_slave.
Proof. reflexivity. Qed.

Lemma slave_or_nonzero (slave_arg : option Z) (self_slave : Z) :
  self_slave <> 0 -> slave_or slave_arg self_slave <> 0.
Proof.
  intros Hd. destruct slave_arg as [s|]; simpl; [|done].
  destruct (Z.eqb_spec s 0); done.
Qed.

(** Every read of a call carries [slave or self.slave]. *)
Lemma get_multiple_units {Value T : Type} `{Transport T}
    (REGISTERS : gmap string (RegisterDefinition Value))
    (self : AsyncHuaweiSolar Value) (names : list string)
    (slave_arg : option Z) (c : T) :
  Forall (fun e => forall a n u t, e = ReadHolding a n u t ->
                   u = slave_or slave_arg (slave self))
    (trace (run (get_multiple REGISTERS self names slave_arg) c)).
Proof.
  destruct (get_multiple_trace REGISTERS self names slave_arg c)
    as [->|(first & rest & _ & _ & ->)]; [constructor|].
  eapply Forall_impl;
    [apply (read_registers_trace self _ _ slave_arg c)|].
  intros e He a n u t ->. by injection (He eq_refl) as _ _ -> _.
Qed.

(** On a connected client, [get] of a known name sends the read of that
    one definition. *)
Lemma get_sends {Value T : Type} `{Transport T}
    (REGISTERS : gmap string (RegisterDefinition Value))
    (self : AsyncHuaweiSolar Value) (name : string)
    (slave_arg : option Z) (d : RegisterDefinition Value) (c : T) :
  REGISTERS !! name = Some d ->
  connected c = true ->
  In (request self (RegisterDefinition.register d)
        (RegisterDefinition.length d) slave_arg)
     (trace (run (get REGISTERS self name slave_arg) c)).
Proof.
  intros Hd Hc. rewrite get_trace.
  assert (Hres : resolve REGISTERS [name] = Some [d]).
  { unfold resolve. apply mapM_Some. by repeat constructor. }
  assert (Hok : ~ overlapping [d]).
  { intros (i & p & q & _ & Hq & _). by destruct i. }
  rewrite (run_get_multiple REGISTERS self [name] slave_arg d [] c Hres Hok).
  cbv zeta. cbn [trace].
  replace (total_length d []) with (RegisterDefinition.length d)
    by (unfold total_length; simpl; lia).
  by apply read_registers_sends.
Qed.

(** C10: a per-call slave id of 0 (like [None]) is dropped by
    [slave or self.slave].  Every read of such a [get_multiple] or [get]
    carries the session's slave id; the call with 0 runs exactly as the call
    with [None] does; and on a session whose slave id is not 0 no per-call
    argument whatever puts 0 on the wire.  On a connected client such a call
    does send its read to the session's slave: an accepted [get_multiple]
    the read of its range, a [get] of a known name the read of that one
    definition. *)
Theorem C10_per_call_slave_zero_is_ignored {Value T : Type} `{Transport T}
    (REGISTERS : gmap string (RegisterDefinition Value))
    (self : AsyncHuaweiSolar Value) (names : list string) (name : string)
    (c : T) :
  let to_session tr :=
    Forall (fun e => forall a n u t, e = ReadHolding a n u t ->
                     u = slave self) tr in
  let never_zero tr :=
    Forall (fun e => forall a n u t, e = ReadHolding a n u t -> u <> 0) tr in
  to_session (trace (run (get_multiple REGISTERS self names (Some 0)) c))
  /\ to_session (trace (run (get REGISTERS self name (Some 0)) c))
  /\ to_session (trace (run (get_multiple REGISTERS self names None) c))
  /\ to_session (trace (run (get REGISTERS self name None) c))
  /\ run (get_multiple REGISTERS self names (Some 0)) c
     = run (get_multiple REGISTERS self names None) c
  /\ run (get REGISTERS self name (Some 0)) c
     = run (get REGISTERS self name None) c
  /\ (forall slave_arg,
        slave self <> 0 ->
        never_zero
          (trace (run (get_multiple REGISTERS self names slave_arg) c))
        /\ never_zero
             (trace (run (get REGISTERS self name slave_arg) c)))
  /\ (forall slave_arg first rest,
        slave_arg = Some 0 \/ slave_arg = None ->
        resolve REGISTERS names = Some (first :: rest) ->
        ~ overlapping (first :: rest) ->
        connected c = true ->
        In (ReadHolding (RegisterDefinition.register first)
              (total_length first rest) (slave self) (_timeout self))
           (trace (run (get_multiple REGISTERS self names slave_arg) c)))
  /\ (forall slave_arg d,
        slave_arg = Some 0 \/ slave_arg = None ->
        REGISTERS !! name = Some d ->
        connected c = true ->
        In (ReadHolding (RegisterDefinition.register d)
              (RegisterDefinition.length d) (slave self) (_timeout self))
           (trace (run (get REGISTERS self name slave_arg) c))).
Proof.
  cbv zeta.
  assert (Hnz : forall slave_arg names',
             slave self <> 0 ->
             Forall (fun e => forall a n u t, e = ReadHolding a n u t ->
                              u <> 0)
               (trace (run (get_multiple REGISTERS self names' slave_arg)
                         c))).
  { intros slave_arg names' Hd. eapply Forall_impl;
      [apply (get_multiple_units REGISTERS self names' slave_arg c)|].
    intros e He a n u t ->. rewrite (He a n u t eq_refl).
    by apply slave_or_nonzero. }
  repeat split.
  - apply (get_multiple_units REGISTERS self names (Some 0) c).
  - rewrite get_trace.
    apply (get_multiple_units REGISTERS self [name] (Some 0) c).
  - apply (get_multiple_units REGISTERS self names None c).
  - rewrite get_trace.
    apply (get_multiple_units REGISTERS self [name] None c).
  - by apply Hnz.
  - rewrite get_trace. by apply Hnz.
  - intros slave_arg first rest Harg Hres Hok Hc.
    rewrite (run_get_multiple REGISTERS self names slave_arg first rest c
               Hres Hok).
    replace (slave self) with (slave_or slave_arg (slave self))
      by (by destruct Harg as [->| ->]).
    apply (read_registers_sends self _ _ slave_arg c Hc).
  - intros slave_arg d Harg Hd Hc.
    replace (slave self) with (slave_or slave_arg (slave self))
      by (by destruct Harg as [->| ->]).
    apply (get_sends REGISTERS self name slave_arg d c Hd Hc).
Qed.

Lemma C10_per_call_slave_zero_is_ignored_witness :
  let c := online [inr (Registers [1; 2; 3])] in
  In (ReadHolding 0 3 3 5)
     (trace (run (get_multiple demo_registers demo_session ["A"; "B"]
                    (Some 0)) c))
  /\ In (ReadHolding 0 3 3 5)
        (trace (run (get_multiple demo_registers demo_session ["A"; "B"]
                       None) c))
  /\ In (ReadHolding 1 2 3 5)
        (trace (run (get demo_registers demo_session "B" (Some 0)) c))
  /\ In (ReadHolding 1 2 3 5)
        (trace (run (get demo_registers demo_session "B" None) c))
  /\ Forall (fun e => forall a n u t, e = ReadHolding a n u t -> u <> 0)
       (trace (run (get demo_registers demo_session "B" (Some 0)) c)).
Proof.
  cbv zeta.
  destruct (C10_per_call_slave_zero_is_ignored demo_registers demo_session
              ["A"; "B"] "B" (online [inr (Registers [1; 2; 3])]))
    as (_ & _ & _ & _ & _ & _ & Hnever & Hmany & Hone).
  assert (Hres : resolve demo_registers ["A"; "B"]
                 = Some [U16 0 (StaticUnit (Some "V"));
                         U32 1 (StaticUnit (Some "W"))])
    by (vm_compute; reflexivity).
  assert (Hok : ~ overlapping [U16 0 (StaticUnit (Some "V"));
                               U32 1 (StaticUnit (Some "W"))]).
  { intros (i & p & q & Hp & Hq & Hpq).
    destruct i as [|[|i]]; simpl in Hp, Hq; [|done..].
    injection Hp as <-. injection Hq as <-. simpl in Hpq. lia. }
  assert (HB : demo_registers !! "B" = Some (U32 1 (StaticUnit (Some "W"))))
    by (vm_compute; reflexivity).
  repeat split.
  - apply (Hmany (Some 0) _ _ (or_introl eq_refl) Hres Hok eq_refl).
  - apply (Hmany None _ _ (or_intror eq_refl) Hres Hok eq_refl).
  - apply (Hone (Some 0) _ (or_introl eq_refl) HB eq_refl).
  - apply (Hone None _ (or_intror eq_refl) HB eq_refl).
  - apply (Hnever (Some 0)). vm_compute. discriminate.
Defined.

(** The session's slave id is 3; asking for slave 0 still reads slave 3,
    asking for slave 9 reads slave 9. *)
Example asks_slave_0_reads_slave_3 :
  trace (run (get demo_registers demo_session "A" (Some 0))
           (online [inr (Registers [1])])) =
  [LockAcquire; ReadHolding 0 1 3 5; Sleep DEFAULT_COOLDOWN_TIME; LockRelease].
Proof. vm_compute. reflexivity. Qed.

Example asks_slave_9_reads_slave_9 :
  trace (run (get demo_registers demo_session "A" (Some 9))
           (online [inr (Registers [1])])) =
  [LockAcquire; ReadHolding 0 1 9 5; Sleep DEFAULT_COOLDOWN_TIME; LockRelease].
Proof. vm_compute. reflexivity. Qed.

(** ** The access serializer, one caller *)

(** C2, as stated, fails: when the transport raises
    [ModbusConnectionException] the lock is released right after the
    request, with no cooldown sleep in between. *)
Lemma C2_counterexample :
  trace (run (_read_registers demo_session 0 1 None)
           (online [inl ModbusConnectionException])) =
    [LockAcquire; ReadHolding 0 1 3 5; LockRelease]
  /\ ~ held_through_cooldown (_cooldown_time demo_session)
        (ReadHolding 0 1 3 5)
        (trace (run (_read_registers demo_session 0 1 None)
                  (online [inl ModbusConnectionException]))).
Proof.
  split; [reflexivity|].
  intros (body & _ & Htr). vm_compute in Htr.
  destruct body as [|e1 [|e2 [|e3 body]]]; simpl in Htr; discriminate.
Qed.

(** C2, amended: the lock is acquired before anything is sent.  When the
    exchange returns a response (registers or an [ExceptionResponse]) the
    lock is held through the cooldown sleep and released after it.  When the
    exchange raises (client not connected, connection failure, tries used
    up, any other exception) the lock is released right after the exchange:
    the cooldown is not slept. *)
Theorem C2_lock_held_through_cooldown_on_response {Value T : Type}
    `{Transport T} (self : AsyncHuaweiSolar Value) (register length : Z)
    (slave_arg : option Z) (c : T) :
  let sent := ReadHolding register length
                (slave_or slave_arg (slave self)) (_timeout self) in
  let o := run (_read_registers self register length slave_arg) c in
  match result o with
  | inr _ => held_through_cooldown (_cooldown_time self) sent (trace o)
  | inl _ => released_after_exchange sent (trace o)
  end.
Proof.
  cbv zeta. rewrite run_read_registers. cbv zeta. cbn [result trace].
  destruct (on_exception_trace self register length slave_arg
              (max_tries - 1) 0 c) as (Hbody & _).
  destruct (result (run (on_exception _ _ _) c)); by eexists.
Qed.

(** ** The response decoder *)

(** *** The payload of a response *)

Lemma pack_H_word16 (w : Z) :
  word16 w -> pack_H w = inr [w / 256; w mod 256].
Proof.
  intros [Hlo Hhi]. unfold pack_H.
  destruct (Z.leb_spec 0 w); [|lia]. destruct (Z.leb_spec w 65535); [|lia].
  simpl. change 255 with (Z.ones 8).
  rewrite !Z.land_ones, Z.shiftr_div_pow2 by lia.
  change (2 ^ 8) with 256.
  rewrite (Z.mod_small (w / 256) 256); [done|].
  split; [apply Z.div_pos; lia|apply Z.div_lt_upper_bound; lia].
Qed.

Lemma pack_H_struct_error (w : Z) :
  ~ word16 w -> pack_H w = inl (OtherException "struct.error").
Proof.
  intros Hw. unfold pack_H, word16 in *.
  destruct (Z.leb_spec 0 w); [|done]. destruct (Z.leb_spec w 65535); [|done].
  lia.
Qed.

Lemma word16_dec (w : Z) : {word16 w} + {~ word16 w}.
Proof.
  unfold word16.
  destruct (Z_le_dec 0 w); [|right; lia].
  destruct (Z_le_dec w 65535); [left; lia|right; lia].
Qed.

(** Registers that are 16-bit words give the big-endian buffer, with the
    cursor on its first byte. *)
Lemma fromRegisters_words (registers : list Z) :
  Forall word16 registers ->
  fromRegisters registers = inr (cursor_at (spec_bytes registers) 0).
Proof.
  intros Hall. unfold fromRegisters, cursor_at.
  assert (Hpack : pack_registers registers = inr (spec_bytes registers)).
  { induction Hall as [|w registers Hw _ IH]; [done|].
    cbn [pack_registers]. by rewrite (pack_H_word16 w Hw), IH. }
  by rewrite Hpack.
Qed.

(** A register that is no 16-bit word makes the packing raise. *)
Lemma fromRegisters_struct_error (registers : list Z) :
  Exists (fun w => ~ word16 w) registers ->
  fromRegisters registers = inl (OtherException "struct.error").
Proof.
  intros Hbad. unfold fromRegisters.
  assert (Hpack : pack_registers registers
                  = inl (OtherException "struct.error")).
  { induction registers as [|w registers IH]; [by inversion Hbad|].
    cbn [pack_registers].
    destruct (word16_dec w) as [Hw|Hw].
    - rewrite (pack_H_word16 w Hw), IH; [done|].
      inversion Hbad; [done|assumption].
    - by rewrite (pack_H_struct_error w Hw). }
  by rewrite Hpack.
Qed.

Section DecoderSpec.

Context {Value : Type}.
Implicit Types self : AsyncHuaweiSolar Value.
Implicit Types defs rest : list (RegisterDefinition Value).
Implicit Types fields : list (exn + (Result Value * BinaryPayloadDecoder)).











End DecoderSpec.




(** A gap between the fields is skipped: [A] at 0 and [C] at 5 are read as
    6 words, of which words 1 to 4 are passed over. *)
Example reads_A_C_skipping_the_gap :
  result (run (get_multiple demo_registers demo_session ["A"; "C"] None)
            (online [inr (Registers [10; 20; 30; 40; 50; 60])])) =
  inr [ {| value := 10; unit := Some "V" |};
        {| value := 60; unit := None |} ].
Proof. vm_compute. reflexivity. Qed.

(** ** The access serializer, several callers *)

(** The guarded body of [_read_registers], with [n] retries left. *)
Lemma guarded_retry_disciplined {Value : Type}
    (self : AsyncHuaweiSolar Value) (register length : Z)
    (slave_arg : option Z) (n tries : nat) :
  disciplined (_cooldown_time self) Holding
    (catch
       (bind
          (result <- on_exception n tries
                       (_do_read self register length slave_arg) ;;
           sleep (_cooldown_time self) ;;
           Return result)%prog
          (fun a => Release (Return a)))
       (fun e => Release (Raise e))).
Proof.
  revert tries.
  induction n as [|n IH]; intros tries; cbn; intros [|]; cbn;
    try done; (split; [done|]); (split; [|by eexists]);
    intros [[]|resp]; cbn; done.
Qed.

(** [_read_registers] has the disciplined shape. *)
Lemma read_registers_disciplined {Value : Type}
    (self : AsyncHuaweiSolar Value) (register length : Z)
    (slave_arg : option Z) :
  disciplined (_cooldown_time self) Before
    (_read_registers self register length slave_arg).
Proof.
  unfold _read_registers, async_with_lock.
  split; [done|apply guarded_retry_disciplined].
Qed.

(** *** What a log entry does to a caller's phase and counts *)

Lemma phase_of_cons_other t i l log j :
  i <> j -> phase_of (Stamped t i l :: log) j = phase_of log j.
Proof. intros Hne. simpl. by destruct (Nat.eqb_spec i j). Qed.

Lemma phase_of_cons_same t i l log :
  phase_of (Stamped t i l :: log) i =
  match l with
  | Did LockAcquire => Holding
  | Did LockRelease => After
  | _ => phase_of log i
  end.
Proof. simpl. by rewrite Nat.eqb_refl. Qed.

Lemma count_by_cons_other f t i l log j :
  i <> j -> count_by f j (Stamped t i l :: log) = count_by f j log.
Proof. intros Hne. simpl. by destruct (Nat.eqb_spec i j). Qed.

Lemma count_by_cons_same f t i l log :
  count_by f i (Stamped t i l :: log) =
  ((if f l then 1 else 0) + count_by f i log)%nat.
Proof. simpl. by rewrite Nat.eqb_refl. Qed.

Section Serializer.

Context {T : Type} `{Transport T} {A : Type}.
Variable cooldown : Q.
Implicit Types s : system T A.

(** *** Bracketing: who may hold the lock *)

Lemma start_bracketed (c : T) (callers : list (prog A)) :
  Forall (disciplined cooldown Before) callers ->
  bracketed cooldown (start c callers).
Proof.
  intros Hall. split; simpl; [|done..].
  intros i tk Hi. apply list_lookup_fmap_Some in Hi as (p & -> & Hp).
  eapply Forall_lookup_1 in Hall; [|exact Hp]. exact Hall.
Qed.

Lemma phase_of_neutral t i did log j :
  Forall no_lock_event did ->
  phase_of (map (Stamped t i) did ++ log) j = phase_of log j.
Proof.
  induction 1 as [|l did [Ha Hr] _ IH]; [done|].
  simpl. destruct (i =? j)%nat; [|done].
  by destruct l as [[]|].
Qed.

Lemma count_by_neutral f t i did log j :
  f = is_acquire \/ f = is_release ->
  Forall no_lock_event did ->
  count_by f j (map (Stamped t i) did ++ log) = count_by f j log.
Proof.
  intros Hf. induction 1 as [|l did [Ha Hr] _ IH]; [done|].
  simpl. rewrite IH.
  destruct Hf as [-> | ->]; rewrite ?Ha, ?Hr, andb_false_r; done.
Qed.

(** A step of caller [i] that is no lock event. *)
Lemma neutral_step_bracketed s i tk tk' (c' : T) (did : list label) :
  bracketed cooldown s ->
  sys_tasks s !! i = Some tk ->
  Forall no_lock_event did ->
  task_disciplined cooldown (phase_of (sys_log s) i) tk' ->
  bracketed cooldown
    (System c' (sys_lock s) (sys_now s) (<[i := tk']> (sys_tasks s))
               (map (Stamped (sys_now s) i) did ++ sys_log s)).
Proof.
  intros [Htasks Hlock Hcount] Hi Hdid Htk'.
  split; cbn [sys_tasks sys_log sys_lock]; intros j.
  - intros tkj Hj. rewrite phase_of_neutral by done.
    destruct (decide (i = j)) as [<-|Hne].
    + rewrite list_lookup_insert_eq in Hj by (by eapply lookup_lt_Some).
      by injection Hj as <-.
    + rewrite list_lookup_insert_ne in Hj by done. by apply Htasks.
  - rewrite phase_of_neutral by done. apply Hlock.
  - rewrite phase_of_neutral, !count_by_neutral by (done || by (left + right)).
    apply Hcount.
Qed.

(** Caller [i] takes the free lock. *)
Lemma acquire_step_bracketed s i k :
  bracketed cooldown s ->
  sys_tasks s !! i = Some (Ready (Acquire k)) ->
  sys_lock s = None ->
  bracketed cooldown (System (sys_client s) (Some i) (sys_now s)
               (<[i := Ready k]> (sys_tasks s))
               (Stamped (sys_now s) i (Did LockAcquire) :: sys_log s)).
Proof.
  intros [Htasks Hlock Hcount] Hi Hfree.
  destruct (Htasks i _ Hi) as [Hbefore Hk].
  split; cbn [sys_tasks sys_log sys_lock]; intros j;
    (destruct (decide (i = j)) as [<-|Hne];
     [rewrite ?phase_of_cons_same, ?count_by_cons_same
     |rewrite ?phase_of_cons_other, ?count_by_cons_other by done]).
  - intros tkj Hj.
    rewrite list_lookup_insert_eq in Hj by (by eapply lookup_lt_Some).
    by injection Hj as <-.
  - intros tkj Hj. rewrite list_lookup_insert_ne in Hj by done.
    by apply Htasks.
  - done.
  - intros Hj. apply Hlock in Hj. congruence.
  - destruct (Hcount i) as [Ha Hr]. rewrite Ha, Hr, Hbefore. done.
  - apply Hcount.
Qed.

(** Caller [i] gives the lock back. *)
Lemma release_step_bracketed s i k :
  bracketed cooldown s ->
  sys_tasks s !! i = Some (Ready (Release k)) ->
  bracketed cooldown (System (sys_client s) None (sys_now s)
               (<[i := Ready k]> (sys_tasks s))
               (Stamped (sys_now s) i (Did LockRelease) :: sys_log s)).
Proof.
  intros [Htasks Hlock Hcount] Hi.
  destruct (Htasks i _ Hi) as [Hholding Hk].
  split; cbn [sys_tasks sys_log sys_lock]; intros j;
    (destruct (decide (i = j)) as [<-|Hne];
     [rewrite ?phase_of_cons_same, ?count_by_cons_same
     |rewrite ?phase_of_cons_other, ?count_by_cons_other by done]).
  - intros tkj Hj.
    rewrite list_lookup_insert_eq in Hj by (by eapply lookup_lt_Some).
    by injection Hj as <-.
  - intros tkj Hj. rewrite list_lookup_insert_ne in Hj by done.
    by apply Htasks.
  - done.
  - intros Hj. apply Hlock in Hj. apply Hlock in Hholding. congruence.
  - destruct (Hcount i) as [Ha Hr]. rewrite Ha, Hr, Hholding. done.
  - apply Hcount.
Qed.

(** Every step keeps the bracketing. *)
Lemma step_bracketed ch s s' :
  bracketed cooldown s -> step ch s = Some s' -> bracketed cooldown s'.
Proof.
  intros Hbr Hstep. destruct ch as [i|d]; simpl in Hstep.
  - destruct (sys_tasks s !! i) as [[p|until k|a n u t k]|] eqn:Hi;
      [|..|done].
    + pose proof (br_tasks cooldown s Hbr i _ Hi) as Hp.
      destruct p as [v|e|k|a n u t k|d k|k|k]; try done.
      * injection Hstep as <-.
        apply (neutral_step_bracketed s i _ _ _ [] Hbr Hi);
          [constructor|apply Hp].
      * injection Hstep as <-.
        apply (neutral_step_bracketed s i _ _ _ [_] Hbr Hi);
          [by repeat constructor|exact Hp].
      * injection Hstep as <-.
        apply (neutral_step_bracketed s i _ _ _ [_] Hbr Hi);
          [by repeat constructor|exact Hp].
      * destruct (sys_lock s) eqn:Hl; [done|]. injection Hstep as <-.
        by apply acquire_step_bracketed.
      * injection Hstep as <-. by apply release_step_bracketed.
    + pose proof (br_tasks cooldown s Hbr i _ Hi) as Hp.
      destruct (Qle_bool until (sys_now s)); [|done]. injection Hstep as <-.
      apply (neutral_step_bracketed s i _ _ _ [] Hbr Hi);
        [constructor|exact Hp].
    + pose proof (br_tasks cooldown s Hbr i _ Hi) as (Hh & Hk & _).
      destruct (read_holding_registers (sys_client s) a n u t) as [r c'].
      injection Hstep as <-.
      apply (neutral_step_bracketed s i _ _ _ [_] Hbr Hi);
        [by repeat constructor|simpl; rewrite Hh; apply Hk].
  - destruct (Qle_bool 0 d); [|done]. injection Hstep as <-.
    destruct Hbr as [Htasks Hlock Hcount]. by split.
Qed.

(** *** The clock *)

Lemma start_timely (c : T) (callers : list (prog A)) :
  timely (start c callers).
Proof. by intros st Hst. Qed.

Lemma step_timely ch s s' : timely s -> step ch s = Some s' -> timely s'.
Proof.
  intros Htime Hstep.
  assert (Hrun : forall i (c : T) lock (tasks : list (task A)) did,
             timely (System c lock (sys_now s) tasks
                       (map (Stamped (sys_now s) i) did ++ sys_log s))).
  { intros i c lock tasks did st Hst. cbn [sys_log sys_now] in *.
    apply in_app_or in Hst as [Hst|Hst]; [|by apply Htime].
    apply in_map_iff in Hst as (l & <- & _). simpl. apply Qle_refl. }
  destruct ch as [i|d]; simpl in Hstep.
  - destruct (sys_tasks s !! i) as [[p|until k|a n u t k]|]; [|..|done].
    + destruct p as [v|e|k|a n u t k|d k|k|k]; try done;
        try (injection Hstep as <-;
             first [apply (Hrun i _ _ _ [])|apply (Hrun i _ _ _ [_])]).
      destruct (sys_lock s); [done|]. injection Hstep as <-.
      apply (Hrun i _ _ _ [_]).
    + destruct (Qle_bool until (sys_now s)); [|done].
      injection Hstep as <-. apply (Hrun i _ _ _ []).
    + destruct (read_holding_registers (sys_client s) a n u t) as [r c'].
      injection Hstep as <-. apply (Hrun i _ _ _ [_]).
  - destruct (Qle_bool 0 d) eqn:Hd; [|done]. injection Hstep as <-.
    apply Qle_bool_iff in Hd. intros st Hst. cbn [sys_log sys_now] in *.
    specialize (Htime st Hst). lra.
Qed.

(** *** The cooldown *)

Lemma start_cooled (c : T) (callers : list (prog A)) :
  cooled cooldown (start c callers).
Proof.
  split; [by intros t1 i resp Hin|].
  intros t1 i resp t2 j (newer & between & older & a & n & u & t & Hlog).
  by destruct newer.
Qed.

Lemma spaced_cons st log :
  spaced_after_response cooldown log ->
  (forall a n u t, what st = Did (ReadHolding a n u t) ->
   forall t1 i resp,
     logged log t1 i (Received (inr resp)) -> i <> by_task st ->
     (t1 + cooldown <= at_time st)%Q) ->
  spaced_after_response cooldown (st :: log).
Proof.
  intros Hsp Hnew t1 i resp t2 j
    (newer & between & older & a & n & u & t & Hlog) Hne.
  destruct newer as [|st' newer]; simpl in Hlog; injection Hlog as -> ->.
  - apply (Hnew a n u t eq_refl t1 i resp); [|done].
    apply in_or_app. right. by left.
  - apply (Hsp t1 i resp t2 j); [|done].
    by exists newer, between, older, a, n, u, t.
Qed.

(** One step of caller [i], as far as the cooldown goes. *)
Lemma run_step_cooled s i tk tk' lock' (c' : T) (did : list label) :
  timely s -> cooled cooldown s ->
  sys_tasks s !! i = Some tk ->
  (length did <= 1)%nat ->
  (forall j, j <> i -> sys_lock s = Some j -> lock' = Some j) ->
  (forall t1,
     (t1 <= sys_now s)%Q -> sys_lock s = Some i -> cooling cooldown t1 tk ->
     (t1 + cooldown <= sys_now s)%Q
     \/ (lock' = Some i /\ cooling cooldown t1 tk')) ->
  (forall resp, In (Received (inr resp)) did ->
     lock' = Some i /\ cooling cooldown (sys_now s) tk') ->
  (forall a n u t, In (Did (ReadHolding a n u t)) did ->
     sys_lock s = Some i) ->
  cooled cooldown (System c' lock' (sys_now s) (<[i := tk']> (sys_tasks s))
            (map (Stamped (sys_now s) i) did ++ sys_log s)).
Proof.
  intros Htime [Hdebt Hsp] Hi Hlen Hothers Hcool Hresp Hread.
  pose proof (lookup_lt_Some _ _ _ Hi) as Hlt.
  split; unfold owes; cbn [sys_tasks sys_log sys_lock sys_now].
  - intros t1 j resp Hin. apply in_app_or in Hin as [Hnew|Hold].
    + apply in_map_iff in Hnew as (l & [= <- <- ->] & Hl).
      right. destruct (Hresp resp Hl) as [Hlock Hc].
      split; [done|]. exists tk'. by rewrite list_lookup_insert_eq.
    + pose proof (Htime _ Hold) as Ht1. simpl in Ht1.
      destruct (Hdebt t1 j resp Hold) as [Hdone|[Hl (tkj & Hj & Hc)]];
        [by left|].
      destruct (decide (j = i)) as [->|Hne].
      * rewrite Hi in Hj. injection Hj as <-.
        destruct (Hcool t1 Ht1 Hl Hc) as [Hdone|[Hl' Hc']]; [by left|].
        right. split; [done|]. exists tk'. by rewrite list_lookup_insert_eq.
      * right. split; [by apply Hothers|].
        exists tkj. by rewrite list_lookup_insert_ne.
  - destruct did as [|l [|l' did]]; simpl in *; [done| |lia].
    apply spaced_cons; [done|]. simpl.
    intros a n u t -> t1 j resp Hlogged Hne.
    destruct (Hdebt t1 j resp Hlogged) as [Hdone|[Hl _]]; [done|].
    rewrite (Hread a n u t) in Hl by (by left). congruence.
Qed.

Local Ltac cool_routine :=
  try (simpl; lia);
  try (by simpl; intros);
  try (by simpl; intros ? [?|[]]);
  try (by simpl; intros ? ? ? ? [?|[]]).

Lemma step_cooled ch s s' :
  bracketed cooldown s -> timely s -> cooled cooldown s ->
  step ch s = Some s' -> cooled cooldown s'.
Proof.
  intros Hbr Htime Hcl Hstep. destruct ch as [i|d]; simpl in Hstep.
  - destruct (sys_tasks s !! i) as [[p|until k|a n u t k]|] eqn:Hi;
      [|..|done].
    + pose proof (br_tasks cooldown s Hbr i _ Hi) as Hp.
      destruct p as [v|e|k|a n u t k|d k|k|k]; try done.
      * injection Hstep as <-.
        apply (run_step_cooled s i _ _ _ _ [] Htime Hcl Hi); cool_routine.
      * injection Hstep as <-. destruct Hp as (Hh & _).
        apply (br_lock cooldown s Hbr) in Hh.
        apply (run_step_cooled s i _ _ _ _ [_] Htime Hcl Hi); cool_routine.
      * injection Hstep as <-.
        apply (run_step_cooled s i _ _ _ _ [_] Htime Hcl Hi); cool_routine.
        simpl. intros t1 Ht1 Hl ->. right. split; [done|]. lra.
      * destruct (sys_lock s) eqn:Hl; [done|]. injection Hstep as <-.
        apply (run_step_cooled s i _ _ _ _ [_] Htime Hcl Hi);
          rewrite ?Hl; cool_routine.
      * injection Hstep as <-. destruct Hp as (Hh & _).
        apply (br_lock cooldown s Hbr) in Hh.
        apply (run_step_cooled s i _ _ _ _ [_] Htime Hcl Hi); cool_routine.
        intros j Hne Hj. congruence.
    + destruct (Qle_bool until (sys_now s)) eqn:Hu; [|done].
      injection Hstep as <-. apply Qle_bool_iff in Hu.
      apply (run_step_cooled s i _ _ _ _ [] Htime Hcl Hi); cool_routine.
      simpl. intros t1 Ht1 Hl Hc. left. lra.
    + pose proof (br_tasks cooldown s Hbr i _ Hi) as (Hh & _ & Hsleep).
      apply (br_lock cooldown s Hbr) in Hh.
      destruct (read_holding_registers (sys_client s) a n u t) as [r c'].
      injection Hstep as <-.
      apply (run_step_cooled s i _ _ _ _ [_] Htime Hcl Hi); cool_routine.
      intros resp [[= ->]|[]]. split; [done|].
      destruct (Hsleep resp) as [k' Hk']. simpl. by rewrite Hk'.
  - destruct (Qle_bool 0 d) eqn:Hd; [|done]. injection Hstep as <-.
    apply Qle_bool_iff in Hd. destruct Hcl as [Hdebt Hsp].
    split; [|done]. intros t1 i resp Hin. cbn [sys_log sys_now] in *.
    destruct (Hdebt t1 i resp Hin) as [Hdone|Howes]; [left; lra|by right].
Qed.

(** *** Every reachable state *)

(** Callers neither come nor go. *)
Lemma exec_tasks_length schedule s s' :
  exec schedule s = Some s' ->
  length (sys_tasks s') = length (sys_tasks s).
Proof.
  revert s. induction schedule as [|ch schedule IH]; intros s; simpl;
    [by intros [= <-]|].
  destruct (step ch s) as [s1|] eqn:Hstep; [|done].
  intros Hs'. rewrite (IH _ Hs').
  destruct ch as [i|d]; simpl in Hstep.
  - destruct (sys_tasks s !! i) as [[p|until k|a n u t k]|]; [|..|done].
    + destruct p; try done;
        try (injection Hstep as <-; simpl; by rewrite length_insert).
      destruct (sys_lock s); [done|].
      injection Hstep as <-; simpl; by rewrite length_insert.
    + destruct (Qle_bool until (sys_now s)); [|done].
      injection Hstep as <-; simpl; by rewrite length_insert.
    + destruct (read_holding_registers (sys_client s) a n u t).
      injection Hstep as <-; simpl; by rewrite length_insert.
  - destruct (Qle_bool 0 d); [|done]. by injection Hstep as <-.
Qed.

Lemma exec_invariants schedule s s' :
  bracketed cooldown s -> timely s -> cooled cooldown s ->
  exec schedule s = Some s' ->
  bracketed cooldown s' /\ timely s' /\ cooled cooldown s'.
Proof.
  revert s. induction schedule as [|ch schedule IH]; intros s Hbr Htime Hcl.
  - by intros [= <-].
  - simpl. destruct (step ch s) as [s1|] eqn:Hstep; [|done].
    apply IH.
    + by eapply step_bracketed.
    + by eapply step_timely.
    + by eapply step_cooled.
Qed.

Lemma invariants_serialized s :
  bracketed cooldown s -> cooled cooldown s -> serialized cooldown s.
Proof.
  intros [Htasks Hlock Hcount] [_ Hsp].
  assert (Hholder : forall i tk,
             sys_tasks s !! i = Some tk -> in_flight tk = true ->
             sys_lock s = Some i).
  { intros i [| |? ? ? ? k] Hi Hfi; try done.
    destruct (Htasks i _ Hi) as [Hh _]. by apply Hlock. }
  split; [|split; [|split; [|split]]].
  - intros i j tki tkj Hi Hj Hfi Hfj.
    pose proof (Hholder i tki Hi Hfi). pose proof (Hholder j tkj Hj Hfj).
    congruence.
  - exact Hholder.
  - intros i j Hi Hj. apply Hlock in Hi, Hj. congruence.
  - intros i. destruct (Hcount i) as [Ha Hr]. split.
    + rewrite Ha. destruct (phase_of (sys_log s) i); lia.
    + intros tk Hi Hfin. rewrite Ha, Hr.
      destruct tk as [[]| |]; try done;
        pose proof (Htasks i _ Hi) as Hph; simpl in Hph; by rewrite Hph.
  - exact Hsp.
Qed.

Lemma reachable_serialized (c : T) (callers : list (prog A)) s :
  Forall (disciplined cooldown Before) callers ->
  reachable c callers s -> serialized cooldown s.
Proof.
  intros Hall [schedule Hexec].
  destruct (exec_invariants schedule _ s
              (start_bracketed c callers Hall) (start_timely c callers)
              (start_cooled c callers) Hexec) as (Hbr & _ & Hcl).
  by apply invariants_serialized.
Qed.

End Serializer.

Example patient_log :
  sys_log patient_state =
  [ Stamped (200 # 10000) 1 (Did LockRelease);
    Stamped (1 # 100) 1 (Did (Sleep DEFAULT_COOLDOWN_TIME));
    Stamped (1 # 100) 1 (Received (inr (Registers [8])));
    Stamped (1 # 100) 1 (Did (ReadHolding 5 1 3 5));
    Stamped (1 # 100) 1 (Did LockAcquire);
    Stamped (1 # 100) 0 (Did LockRelease);
    Stamped 0 0 (Did (Sleep DEFAULT_COOLDOWN_TIME));
    Stamped 0 0 (Received (inr (Registers [7])));
    Stamped 0 0 (Did (ReadHolding 0 1 3 5));
    Stamped 0 0 (Did LockAcquire) ]
  /\ Forall (fun tk => finished tk = true) (sys_tasks patient_state).
Proof. split; [vm_compute; reflexivity|vm_compute; repeat constructor]. Qed.

Example hasty_log :
  sys_log hasty_state =
  [ Stamped 0 1 (Did (ReadHolding 5 1 3 5));
    Stamped 0 1 (Did LockAcquire);
    Stamped 0 0 (Did LockRelease);
    Stamped 0 0 (Received (inl ModbusConnectionException));
    Stamped 0 0 (Did (ReadHolding 0 1 3 5));
    Stamped 0 0 (Did LockAcquire) ].
Proof. vm_compute. reflexivity. Qed.

(** A caller cannot take the lock while another holds it: after caller 0
    has acquired, caller 1 is stuck until the release. *)
Example second_caller_waits :
  exec [Run 0; Run 1]%nat
    (start (online [inr (Registers [7])]) two_callers) = None.
Proof. vm_compute. reflexivity. Qed.

(** C9, as stated, fails: in [hasty_state] caller 1 sends its read at time
    0, the instant at which caller 0 received its (failed) answer, although
    the cooldown is 10 ms. *)
Lemma C9_counterexample :
  reachable (online [inl ModbusConnectionException; inr (Registers [8])])
    two_callers hasty_state
  /\ ~ spaced_by_cooldown (_cooldown_time demo_session) (sys_log hasty_state).
Proof.
  split; [exists hasty_schedule; vm_compute; reflexivity|].
  intros Hall.
  assert (Hlate : (0 + _cooldown_time demo_session <= 0)%Q).
  { apply (Hall 0%Q 0%nat (inl ModbusConnectionException) 0%Q 1%nat); [|done].
    exists [], [Stamped 0 1 (Did LockAcquire); Stamped 0 0 (Did LockRelease)],
      [Stamped 0 0 (Did (ReadHolding 0 1 3 5)); Stamped 0 0 (Did LockAcquire)],
      5, 1, 3, 5.
    vm_compute. reflexivity. }
  vm_compute in Hlate. by apply Hlate.
Qed.

(** C9, amended: [N] callers of [_read_registers] on one session.  In
    every state the scheduler can reach, at most one request is in flight
    and at most one caller is inside its guarded section; each caller
    enters its section at most once, and has entered and left it exactly
    once when it has finished (so [N] finished callers made [N] exchanges,
    one after the other); and a read is sent at least the cooldown time
    after any response that another caller received.  Nothing is promised
    about the time after an exchange that raised. *)
Theorem C9_exchanges_serialized {Value T : Type} `{Transport T}
    (self : AsyncHuaweiSolar Value) (requests : list (Z * Z * option Z))
    (c : T) (s : system T response) :
  reachable c
    (map (fun '(register, length, slave_arg) =>
            _read_registers self register length slave_arg) requests) s ->
  length (sys_tasks s) = length requests
  /\ serialized (_cooldown_time self) s.
Proof.
  intros Hreach. split.
  - destruct Hreach as [schedule Hexec].
    rewrite (exec_tasks_length _ _ _ Hexec). simpl. by rewrite !length_map.
  - eapply reachable_serialized; [|exact Hreach].
    apply Forall_forall. intros p Hp.
    apply list_elem_of_In, in_map_iff in Hp
      as ([[register length] slave_arg] & <- & _).
    apply read_registers_disciplined.
Qed.

Lemma C9_exchanges_serialized_witness :
  length (sys_tasks patient_state) = 2%nat
  /\ serialized (_cooldown_time demo_session) patient_state.
Proof.
  apply (C9_exchanges_serialized demo_session [(0, 1, None); (5, 1, None)]
           (online [inr (Registers [7]); inr (Registers [8])])
           patient_state).
  exists patient_schedule. vm_compute. reflexivity.
Defined.

(** * Further properties *)

(** ** The attempt that ends the retry loop *)

(** After [k < 5] timeouts the guarded section has sent [k] requests and
    slept [k] times, and what follows is the loop with the retries left. *)
Lemma read_registers_after_timeouts {Value T : Type} `{Transport T}
    (self : AsyncHuaweiSolar Value) (register length : Z)
    (slave_arg : option Z) (k : nat) (c ck : T) :
  (k < 5)%nat ->
  after_timeouts k c register length
    (slave_or slave_arg (slave self)) (_timeout self) = Some ck ->
  run (_read_registers self register length slave_arg) c =
  let o := run (on_exception (4 - k) k
                  (_do_read self register length slave_arg)) ck in
  Outcome (result o) (client o)
    (LockAcquire
     :: backoff_rounds (request self register length slave_arg) k
     ++ trace o
     ++ match result o with
        | inr _ => [Sleep (_cooldown_time self); LockRelease]
        | inl _ => [LockRelease]
        end).
Proof.
  intros Hlt Hk. rewrite run_read_registers. cbv zeta.
  replace (max_tries - 1)%nat with (k + (4 - k))%nat
    by (unfold max_tries; lia).
  rewrite (on_exception_timeouts self register length slave_arg
             k (4 - k) 0 c ck Hk).
  cbv zeta. cbn [result client trace].
  rewrite Nat.add_0_r. by rewrite <- app_assoc.
Qed.

(** X1: the client is asked whether it is connected before every attempt,
    not only the first.  If it has dropped the connection after [k]
    timeouts, the read fails with [ConnectionException] (not with
    [ReadException]): [k] requests were sent, each followed by the backoff
    sleep, and the lock is released without a cooldown. *)
Theorem X1_disconnect_between_retries {Value T : Type} `{Transport T}
    (self : AsyncHuaweiSolar Value) (register length : Z)
    (slave_arg : option Z) (k : nat) (c ck : T) :
  (k < 5)%nat ->
  after_timeouts k c register length
    (slave_or slave_arg (slave self)) (_timeout self) = Some ck ->
  connected ck = false ->
  run (_read_registers self register length slave_arg) c =
  Outcome (inl ConnectionException) ck
    (LockAcquire
     :: backoff_rounds
          (ReadHolding register length (slave_or slave_arg (slave self))
             (_timeout self)) k
     ++ [LockRelease]).
Proof.
  intros Hlt Hk Hc.
  rewrite (read_registers_after_timeouts self register length slave_arg
             k c ck Hlt Hk).
  cbv zeta. rewrite run_on_exception. cbv zeta. by rewrite Hc.
Qed.

Lemma X1_disconnect_between_retries_witness :
  run (_read_registers demo_session 0 1 None) {| reads_left := 2 |} =
  Outcome (inl ConnectionException) {| reads_left := 0 |}
    (LockAcquire :: backoff_rounds (ReadHolding 0 1 3 5) 2 ++ [LockRelease]).
Proof.
  apply (X1_disconnect_between_retries demo_session 0 1 None 2
           {| reads_left := 2 |} {| reads_left := 0 |});
    [lia|reflexivity|reflexivity].
Defined.

(** X2: an exception of the transport that is neither a timeout nor a
    [ModbusConnectionException] is passed on as it is: the request that
    raised it is the last one sent, and the lock is released without a
    cooldown. *)
Theorem X2_other_exceptions_pass_through {Value T : Type} `{Transport T}
    (self : AsyncHuaweiSolar Value) (register length : Z)
    (slave_arg : option Z) (k : nat) (c ck c' : T) (err : exn) :
  (k < 5)%nat ->
  after_timeouts k c register length
    (slave_or slave_arg (slave self)) (_timeout self) = Some ck ->
  connected ck = true ->
  read_holding_registers ck register length
    (slave_or slave_arg (slave self)) (_timeout self) = (inl err, c') ->
  err <> TimeoutError -> err <> ModbusConnectionException ->
  let sent := ReadHolding register length
                (slave_or slave_arg (slave self)) (_timeout self) in
  run (_read_registers self register length slave_arg) c =
  Outcome (inl err) c'
    (LockAcquire :: backoff_rounds sent k ++ [sent; LockRelease]).
Proof.
  intros Hlt Hk Hc Hr Hne1 Hne2 sent.
  rewrite (read_registers_after_timeouts self register length slave_arg
             k c ck Hlt Hk).
  cbv zeta.
  rewrite on_exception_settled; [|done|rewrite Hr; simpl; congruence].
  rewrite Hr. by destruct err.
Qed.

Lemma X2_other_exceptions_pass_through_witness :
  let sent := ReadHolding 0 1 3 5 in
  run (_read_registers demo_session 0 1 None)
      (online [inl TimeoutError; inl (OtherException "OSError");
               inr (Registers [1])]) =
  Outcome (inl (OtherException "OSError")) (online [inr (Registers [1])])
    (LockAcquire :: backoff_rounds sent 1 ++ [sent; LockRelease]).
Proof.
  apply (X2_other_exceptions_pass_through demo_session 0 1 None 1
           (online [inl TimeoutError; inl (OtherException "OSError");
                    inr (Registers [1])])
           (online [inl (OtherException "OSError"); inr (Registers [1])])
           (online [inr (Registers [1])]) (OtherException "OSError"));
    [lia|reflexivity|reflexivity|reflexivity|discriminate|discriminate].
Defined.

(** X3: when the device answers with registers, all of them 16-bit words,
    after [k < 5] timeouts, [get_multiple] returns what decoding the
    big-endian bytes of these registers gives, from the first byte on:
    [k + 1] requests were sent, the backoff was slept [k] times, and the
    cooldown is slept before the lock is released. *)
Theorem X3_answer_after_timeouts {Value T : Type} `{Transport T}
    (REGISTERS : gmap string (RegisterDefinition Value))
    (self : AsyncHuaweiSolar Value) (names : list string)
    (slave_arg : option Z) (first : RegisterDefinition Value)
    (rest : list (RegisterDefinition Value)) (k : nat) (c ck c' : T)
    (registers : list Z) :
  resolve REGISTERS names = Some (first :: rest) ->
  ~ overlapping (first :: rest) ->
  let sent := ReadHolding (RegisterDefinition.register first)
                (total_length first rest)
                (slave_or slave_arg (slave self)) (_timeout self) in
  (k < 5)%nat ->
  after_timeouts k c (RegisterDefinition.register first)
    (total_length first rest)
    (slave_or slave_arg (slave self)) (_timeout self) = Some ck ->
  connected ck = true ->
  read_holding_registers ck (RegisterDefinition.register first)
    (total_length first rest)
    (slave_or slave_arg (slave self)) (_timeout self)
    = (inr (Registers registers), c') ->
  Forall word16 registers ->
  run (get_multiple REGISTERS self names slave_arg) c =
  Outcome
    (decode_all self first rest (cursor_at (spec_bytes registers) 0)) c'
    (LockAcquire :: backoff_rounds sent k
       ++ [sent; Sleep (_cooldown_time self); LockRelease]).
Proof.
  intros Hres Hok sent Hlt Hk Hc Hr Hwords.
  rewrite (run_get_multiple REGISTERS self names slave_arg first rest c
             Hres Hok).
  cbv zeta.
  rewrite (read_registers_after_timeouts self _ _ slave_arg k c ck Hlt Hk).
  cbv zeta. rewrite on_exception_settled; [|done|by rewrite Hr].
  rewrite Hr. cbn [fst snd result client trace].
  by rewrite (fromRegisters_words registers Hwords).
Qed.

Lemma X3_answer_after_timeouts_witness :
  let sent := ReadHolding 0 3 3 5 in
  run (get_multiple demo_registers demo_session ["A"; "B"] None)
      (online [inl TimeoutError; inl TimeoutError;
               inr (Registers [1; 2; 3])]) =
  Outcome
    (decode_all demo_session (U16 0 (StaticUnit (Some "V")))
       [U32 1 (StaticUnit (Some "W"))]
       (cursor_at (spec_bytes [1; 2; 3]) 0))
    (online [])
    (LockAcquire :: backoff_rounds sent 2
       ++ [sent; Sleep (_cooldown_time demo_session); LockRelease]).
Proof.
  apply (X3_answer_after_timeouts demo_registers demo_session ["A"; "B"]
           None (U16 0 (StaticUnit (Some "V")))
           [U32 1 (StaticUnit (Some "W"))] 2
           (online [inl TimeoutError; inl TimeoutError;
                    inr (Registers [1; 2; 3])])
           (online [inr (Registers [1; 2; 3])]) (online []) [1; 2; 3]).
  - vm_compute. reflexivity.
  - intros (i & p & q & Hp & Hq & Hpq).
    destruct i as [|[|i]]; simpl in Hp, Hq; [|done..].
    injection Hp as <-. injection Hq as <-. simpl in Hpq. lia.
  - lia.
  - reflexivity.
  - reflexivity.
  - reflexivity.
  - unfold word16. repeat constructor; lia.
Defined.

(** The answer of the example, decoded: two timeouts, then the values. *)
Example answer_after_two_timeouts :
  result (run (get_multiple demo_registers demo_session ["A"; "B"] None)
            (online [inl TimeoutError; inl TimeoutError;
                     inr (Registers [1; 2; 3])])) =
  inr [ {| value := 1; unit := Some "V" |};
        {| value := 131075; unit := Some "W" |} ].
Proof. vm_compute. reflexivity. Qed.

(** X19: a response that carries a register which is no 16-bit word is
    not decoded: packing the registers raises [struct.error], after the
    guarded read has run to its end (cooldown slept, lock released), and
    the client is left as the read left it. *)
Theorem X19_register_out_of_range {Value T : Type} `{Transport T}
    (REGISTERS : gmap string (RegisterDefinition Value))
    (self : AsyncHuaweiSolar Value) (names : list string)
    (slave_arg : option Z) (first : RegisterDefinition Value)
    (rest : list (RegisterDefinition Value)) (c : T) (registers : list Z) :
  resolve REGISTERS names = Some (first :: rest) ->
  ~ overlapping (first :: rest) ->
  let o := run (_read_registers self (RegisterDefinition.register first)
                  (total_length first rest) slave_arg) c in
  result o = inr (Registers registers) ->
  Exists (fun w => ~ word16 w) registers ->
  run (get_multiple REGISTERS self names slave_arg) c =
  Outcome (inl (OtherException "struct.error")) (client o) (trace o)
  /\ exists body,
       trace o = LockAcquire :: body
                 ++ [Sleep (_cooldown_time self); LockRelease].
Proof.
  intros Hres Hok o Hread Hbad. split.
  - rewrite (run_get_multiple REGISTERS self names slave_arg first rest c
               Hres Hok).
    cbv zeta. fold o.
    by rewrite Hread, (fromRegisters_struct_error registers Hbad).
  - subst o. rewrite run_read_registers in Hread |- *. cbv zeta in *.
    cbn [result trace] in *.
    destruct (result (run (on_exception _ _ _) c)) as [e|resp]; [done|].
    by eexists.
Qed.

Lemma X19_register_out_of_range_witness :
  run (get_multiple demo_registers demo_session ["A"] None)
    (online [inr (Registers [65536])]) =
  Outcome (inl (OtherException "struct.error")) (online [])
    [LockAcquire; ReadHolding 0 1 3 5; Sleep DEFAULT_COOLDOWN_TIME;
     LockRelease].
Proof.
  destruct (X19_register_out_of_range demo_registers demo_session ["A"] None
              (U16 0 (StaticUnit (Some "V"))) []
              (online [inr (Registers [65536])]) [65536])
    as [Hrun _].
  - vm_compute. reflexivity.
  - intros (i & p & q & _ & Hq & _). by destruct i.
  - reflexivity.
  - apply Exists_cons_hd. unfold word16. lia.
  - exact Hrun.
Defined.

(** ** The shape of every guarded read *)

Section Shape.

Context {Value T : Type} `{Transport T}.
Implicit Types self : AsyncHuaweiSolar Value.

(** The retry loop with [n] retries left: some [k <= n] backoff rounds and
    then at most one more request, which is there whenever the loop
    returned. *)
Lemma on_exception_shape self register length slave_arg n tries (c : T) :
  let sent := request self register length slave_arg in
  let o := run (on_exception n tries
                  (_do_read self register length slave_arg)) c in
  exists k final,
    (k <= n)%nat
    /\ (final = [] \/ final = [sent])
    /\ trace o = backoff_rounds sent k ++ final
    /\ (forall resp, result o = inr resp -> final = [sent]).
Proof.
  cbv zeta. revert tries c.
  induction n as [|n IH]; intros tries c; rewrite run_on_exception;
    cbv zeta; fold (request self register length slave_arg);
    (destruct (connected c);
     [|exists 0%nat, []; repeat split; (done || lia || by left)]);
    destruct (read_holding_registers c register length _ _)
      as [[[]|resp] c'];
    try (exists 0%nat, [request self register length slave_arg];
         repeat split; (done || lia || by right)).
  destruct (IH (S tries) c') as (k & final & Hk & Hfinal & Htr & Hret).
  exists (S k), final. repeat split; [lia|done| |done].
  cbn [emit trace]. by rewrite Htr.
Qed.

Lemma elapsed_app tr1 tr2 :
  (elapsed (tr1 ++ tr2) == elapsed tr1 + elapsed tr2)%Q.
Proof.
  induction tr1 as [|[| | |d] tr1 IH]; simpl; rewrite ?IH; lra.
Qed.

Lemma elapsed_backoff_rounds a n u t k :
  (elapsed (backoff_rounds (ReadHolding a n u t) k)
   == inject_Z (Z.of_nat k * DEFAULT_WAIT))%Q.
Proof.
  induction k as [|k IH]; [reflexivity|].
  change (backoff_rounds (ReadHolding a n u t) (S k))
    with (ReadHolding a n u t :: Sleep (inject_Z DEFAULT_WAIT)
          :: backoff_rounds (ReadHolding a n u t) k).
  cbn [elapsed]. rewrite IH.
  rewrite Nat2Z.inj_succ, Z.mul_succ_l, inject_Z_plus. lra.
Qed.

Lemma wire_reads_backoff_rounds a n u t k :
  wire_reads (backoff_rounds (ReadHolding a n u t) k) = k.
Proof.
  induction k as [|k IH]; [reflexivity|].
  change (backoff_rounds (ReadHolding a n u t) (S k))
    with (ReadHolding a n u t :: Sleep (inject_Z DEFAULT_WAIT)
          :: backoff_rounds (ReadHolding a n u t) k).
  rewrite !wire_reads_cons, IH. reflexivity.
Qed.

End Shape.

(** X4: every run of [_read_registers], whatever the transport does, is: the
    acquire; [k <= 4] rounds of "request, sleep [DEFAULT_WAIT]"; at most
    one more request (always there when a response is returned); the
    cooldown sleep if and only if a response is returned; the release.  So
    one call sleeps [k * DEFAULT_WAIT] seconds, plus the cooldown when it
    returns: at most 8 seconds of backoff. *)
Theorem X4_shape_and_time_of_a_read {Value T : Type} `{Transport T}
    (self : AsyncHuaweiSolar Value) (register length : Z)
    (slave_arg : option Z) (c : T) :
  let sent := ReadHolding register length
                (slave_or slave_arg (slave self)) (_timeout self) in
  let o := run (_read_registers self register length slave_arg) c in
  let tail :=
    match result o with
    | inr _ => [Sleep (_cooldown_time self); LockRelease]
    | inl _ => [LockRelease]
    end in
  exists k final,
    (k <= 4)%nat
    /\ (final = [] \/ final = [sent])
    /\ (forall resp, result o = inr resp -> final = [sent])
    /\ trace o = LockAcquire :: backoff_rounds sent k ++ final ++ tail
    /\ wire_reads (trace o) = (k + Datatypes.length final)%nat
    /\ (elapsed (trace o)
        == inject_Z (Z.of_nat k * DEFAULT_WAIT)
           + match result o with
             | inr _ => _cooldown_time self
             | inl _ => 0
             end)%Q.
Proof.
  cbv zeta. rewrite run_read_registers. cbv zeta. cbn [result trace].
  destruct (on_exception_shape self register length slave_arg
              (max_tries - 1) 0 c) as (k & final & Hk & Hfinal & Htr & Hret).
  cbv zeta in Htr, Hret. unfold request in *.
  set (o := run (on_exception _ _ _) c) in *.
  exists k, final. split; [exact Hk|]. split; [exact Hfinal|].
  split; [exact Hret|]. rewrite Htr, <- app_assoc.
  split; [reflexivity|]. split.
  - rewrite wire_reads_cons, !wire_reads_app, wire_reads_backoff_rounds.
    simpl. destruct Hfinal as [-> | ->], (result o); reflexivity.
  - cbn [elapsed]. rewrite !elapsed_app, elapsed_backoff_rounds.
    destruct Hfinal as [-> | ->], (result o); simpl; lra.
Qed.

(** The trace of [get_multiple] leaves the lock as it found it. *)
Lemma get_multiple_lock_balanced {Value T : Type} `{Transport T}
    (REGISTERS : gmap string (RegisterDefinition Value))
    (self : AsyncHuaweiSolar Value) (names : list string)
    (slave_arg : option Z) (c : T) :
  lock_balanced (trace (run (get_multiple REGISTERS self names slave_arg) c)).
Proof.
  destruct (get_multiple_trace REGISTERS self names slave_arg c)
    as [->|(first & rest & _ & _ & ->)]; [by left|].
  right. rewrite run_read_registers. cbv zeta. cbn [trace].
  destruct (on_exception_trace self (RegisterDefinition.register first)
              (total_length first rest) slave_arg (max_tries - 1) 0 c)
    as (Hbody & _).
  cbv zeta in Hbody.
  set (o := run (on_exception _ _ _) c) in *.
  assert (Hfree : Forall (fun e => is_lock_event e = false) (trace o)).
  { eapply Forall_impl; [exact Hbody|]. by intros e [-> | ->]. }
  destruct (result o).
  - by exists (trace o).
  - exists (trace o ++ [Sleep (_cooldown_time self)]). split.
    + apply Forall_app. split; [done|by repeat constructor].
    + by rewrite <- app_assoc.
Qed.

(** X5: no call of [get_multiple] or [get] leaves the lock taken or
    releases a lock it has not taken: its trace is empty, or it is one
    acquire, then events that are no lock events, then one release. *)
Theorem X5_lock_always_given_back {Value T : Type} `{Transport T}
    (REGISTERS : gmap string (RegisterDefinition Value))
    (self : AsyncHuaweiSolar Value) (names : list string) (name : string)
    (slave_arg : option Z) (c : T) :
  lock_balanced (trace (run (get_multiple REGISTERS self names slave_arg) c))
  /\ lock_balanced (trace (run (get REGISTERS self name slave_arg) c)).
Proof.
  split; [|rewrite get_trace]; apply get_multiple_lock_balanced.
Qed.

(** ** What a call returns *)

Section Returned.

Context {Value T : Type} `{Transport T}.
Variable REGISTERS : gmap string (RegisterDefinition Value).
Implicit Types self : AsyncHuaweiSolar Value.
Implicit Types d first prev : RegisterDefinition Value.
Implicit Types rest regs : list (RegisterDefinition Value).

(** A call that returns has been accepted by the planner, has read
    registers, and returns what decoding them gives. *)
Lemma get_multiple_returned self names slave_arg (c : T) results :
  result (run (get_multiple REGISTERS self names slave_arg) c) = inr results ->
  exists first rest registers decoder,
    resolve REGISTERS names = Some (first :: rest)
    /\ ~ overlapping (first :: rest)
    /\ fromRegisters registers = inr decoder
    /\ decode_all self first rest decoder = inr results.
Proof.
  intros Hret.
  destruct (resolve REGISTERS names) as [[|first rest]|] eqn:Hres.
  - unfold get_multiple in Hret. rewrite Hres in Hret. by destruct names.
  - destruct (check_registers first rest) as [why|] eqn:Hcheck.
    + unfold get_multiple in Hret. rewrite Hres, Hcheck in Hret.
      by destruct names.
    + apply check_registers_None in Hcheck.
      rewrite (run_get_multiple REGISTERS self names slave_arg first rest c
                 Hres Hcheck) in Hret.
      cbv zeta in Hret. cbn [result] in Hret.
      destruct (result (run (_read_registers _ _ _ _) c))
        as [e|[registers|code]]; [done| |done].
      destruct (fromRegisters registers) as [e|decoder] eqn:Hdec; [done|].
      by exists first, rest, registers, decoder.
  - unfold get_multiple in Hret. rewrite Hres in Hret. by destruct names.
Qed.

Lemma decode_response_unit self d decoder r decoder' :
  _decode_response self d decoder = inr (r, decoder') ->
  unit r = static_unit d
  /\ RegisterDefinition.decode d decoder self = inr (value r, decoder').
Proof.
  unfold _decode_response, static_unit.
  destruct (RegisterDefinition.decode d decoder self) as [e|[v dec]];
    [done|].
  by destruct (RegisterDefinition.unit d); intros [= <- <-].
Qed.

Lemma decode_rest_units self prev rest decoder rs :
  decode_rest self prev rest decoder = inr rs ->
  Forall2 (fun d r => unit r = static_unit d) rest rs.
Proof.
  revert prev decoder rs.
  induction rest as [|d rest IH]; intros prev decoder rs; simpl.
  - intros [= <-]. constructor.
  - destruct (_decode_response self d _) as [e|[r dec]] eqn:Hd; [done|].
    destruct (decode_rest self d rest dec) as [e|rs'] eqn:Hrest; [done|].
    intros [= <-]. constructor; [|by eapply IH].
    by apply decode_response_unit in Hd as [? _].
Qed.

Lemma decode_all_units self first rest decoder rs :
  decode_all self first rest decoder = inr rs ->
  Forall2 (fun d r => unit r = static_unit d) (first :: rest) rs.
Proof.
  unfold decode_all.
  destruct (_decode_response self first decoder) as [e|[r dec]] eqn:Hd;
    [done|].
  destruct (decode_rest self first rest dec) as [e|rs'] eqn:Hrest; [done|].
  intros [= <-]. constructor; [|by eapply decode_rest_units].
  by apply decode_response_unit in Hd as [? _].
Qed.

End Returned.

(** X6: whenever [get_multiple] returns, it returns one [Result] per name,
    in the order of the names, and the unit of each is the unit attribute
    of the definition of its name when that is a plain value, and [None]
    when the attribute is missing, callable or a dict. *)
Theorem X6_units_of_the_results {Value T : Type} `{Transport T}
    (REGISTERS : gmap string (RegisterDefinition Value))
    (self : AsyncHuaweiSolar Value) (names : list string)
    (slave_arg : option Z) (c : T) (results : list (Result Value)) :
  result (run (get_multiple REGISTERS self names slave_arg) c) = inr results ->
  length results = length names
  /\ Forall2 (fun name r =>
                exists d, REGISTERS !! name = Some d
                          /\ unit r = static_unit d) names results.
Proof.
  intros Hret.
  destruct (get_multiple_returned REGISTERS self names slave_arg c results
              Hret) as (first & rest & registers & decoder & Hres & _ & _
                        & Hdec).
  apply decode_all_units in Hdec.
  unfold resolve in Hres. apply mapM_Some in Hres.
  assert (HF : Forall2 (fun name r =>
                          exists d, REGISTERS !! name = Some d
                                    /\ unit r = static_unit d) names results).
  { revert Hres Hdec. generalize (first :: rest). clear.
    intros regs Hres. revert results.
    induction Hres as [|name d names regs Hname _ IH]; intros results Hdec.
    - inversion Hdec. constructor.
    - inversion Hdec as [|? r ? rs Hr Hrs]; subst.
      constructor; [by exists d|by apply IH]. }
  split; [|exact HF]. symmetry. by eapply Forall2_length.
Qed.

Lemma X6_units_of_the_results_witness :
  length [ {| value := 10; unit := Some "V" |};
           {| value := 60; unit := None |} ] = length ["A"; "C"]
  /\ Forall2 (fun name r =>
                exists d, demo_registers !! name = Some d
                          /\ unit r = static_unit d) ["A"; "C"]
       [ {| value := 10; unit := Some "V" |};
         {| value := 60; unit := None |} ].
Proof.
  apply (X6_units_of_the_results demo_registers demo_session ["A"; "C"] None
           (online [inr (Registers [10; 20; 30; 40; 50; 60])])).
  vm_compute. reflexivity.
Defined.

(** X7: [get] of a name succeeds exactly when [get_multiple] of that one
    name does, with its only result; it fails with the same exception, and
    indexing the result list never fails. *)
Theorem X7_get_is_the_single_result {Value T : Type} `{Transport T}
    (REGISTERS : gmap string (RegisterDefinition Value))
    (self : AsyncHuaweiSolar Value) (name : string)
    (slave_arg : option Z) (c : T) :
  let one := run (get REGISTERS self name slave_arg) c in
  let many := run (get_multiple REGISTERS self [name] slave_arg) c in
  (forall r, result one = inr r <-> result many = inr [r])
  /\ (forall e, result one = inl e <-> result many = inl e)
  /\ client one = client many
  /\ trace one = trace many.
Proof.
  cbv zeta. unfold get. rewrite run_bind.
  destruct (result (run (get_multiple REGISTERS self [name] slave_arg) c))
    as [e|results] eqn:Hmany; cbn [result client trace].
  - repeat split; intros; congruence.
  - destruct (get_multiple_returned REGISTERS self [name] slave_arg c
                results Hmany)
      as (first & rest & registers & decoder & Hres & _ & _ & Hdec).
    apply decode_all_units, Forall2_length in Hdec.
    apply resolve_length in Hres. simpl in Hres, Hdec.
    destruct results as [|r [|r' results]]; simpl in *; try lia.
    rewrite app_nil_r. repeat split; intros; congruence.
Qed.

(** ** More on the planner *)

Section PlannerMore.

Context {Value : Type}.
Implicit Types d p q first prev : RegisterDefinition Value.
Implicit Types rest regs : list (RegisterDefinition Value).

(** The loop stops at the first pair that overlaps and reports it. *)
Lemma check_registers_first prev rest i p q :
  (forall j, (j < i)%nat -> pair_fine (prev :: rest) j) ->
  (prev :: rest) !! i = Some p -> (prev :: rest) !! S i = Some q ->
  RegisterDefinition.register p + RegisterDefinition.length p
  > RegisterDefinition.register q ->
  check_registers prev rest =
  Some (NotMonotonic (RegisterDefinition.register p)
          (RegisterDefinition.length p) (RegisterDefinition.register q)).
Proof.
  revert prev i. induction rest as [|cur rest IH]; intros prev i Hfine Hp Hq Hpq.
  - by destruct i.
  - simpl. destruct i as [|i].
    + simpl in Hp, Hq. injection Hp as <-. injection Hq as <-.
      destruct (Z.gtb_spec
                  (RegisterDefinition.register prev
                   + RegisterDefinition.length prev)
                  (RegisterDefinition.register cur)); [done|lia].
    + pose proof (Hfine 0%nat ltac:(lia) prev cur eq_refl eq_refl) as H0.
      destruct (Z.gtb_spec
                  (RegisterDefinition.register prev
                   + RegisterDefinition.length prev)
                  (RegisterDefinition.register cur)); [lia|].
      destruct (Z.gtb_spec
                  (RegisterDefinition.register prev
                   + RegisterDefinition.length prev
                   - RegisterDefinition.register cur) 64); [lia|].
      apply (IH cur i); [|done..].
      intros j Hj p' q' Hp' Hq'.
      by apply (Hfine (S j) ltac:(lia) p' q').
Qed.

(** Without overlap, and with lengths that are not negative, a definition
    ends before every later one starts. *)
Lemma ordered_pairwise regs i j di dj :
  ~ overlapping regs ->
  Forall (fun d => 0 <= RegisterDefinition.length d) regs ->
  (i < j)%nat -> regs !! i = Some di -> regs !! j = Some dj ->
  RegisterDefinition.register di + RegisterDefinition.length di
  <= RegisterDefinition.register dj.
Proof.
  intros Hok Hlen Hij Hi. revert dj.
  induction j as [|j IH]; intros dj Hj; [lia|].
  destruct (lookup_lt_is_Some_2 regs j) as [dj' Hj'].
  { apply lookup_lt_Some in Hj. lia. }
  assert (Hadj : RegisterDefinition.register dj'
                 + RegisterDefinition.length dj'
                 <= RegisterDefinition.register dj).
  { destruct (Z.le_gt_cases
                (RegisterDefinition.register dj'
                 + RegisterDefinition.length dj')
                (RegisterDefinition.register dj)) as [|Hgt]; [done|].
    exfalso. apply Hok. exists j, dj', dj. repeat split; [done..|lia]. }
  destruct (decide (i = j)) as [->|Hne].
  - rewrite Hi in Hj'. by injection Hj' as ->.
  - specialize (IH ltac:(lia) dj' Hj').
    rewrite Forall_forall in Hlen.
    pose proof (Hlen dj' (list_elem_of_lookup_2 _ _ _ Hj')). lia.
Qed.

Lemma last_default_irrelevant d rest a b :
  List.last (d :: rest) a = List.last (d :: rest) b.
Proof.
  revert d. induction rest as [|d' rest IH]; intros d; [done|].
  change (List.last (d :: d' :: rest) a) with (List.last (d' :: rest) a).
  change (List.last (d :: d' :: rest) b) with (List.last (d' :: rest) b).
  apply IH.
Qed.

Lemma last_cons_default d rest first :
  List.last (d :: rest) first = List.last rest d.
Proof.
  destruct rest as [|d' rest]; [done|].
  change (List.last (d :: d' :: rest) first)
    with (List.last (d' :: rest) first).
  apply last_default_irrelevant.
Qed.

Lemma last_lookup_cons first rest :
  (first :: rest) !! length rest = Some (List.last rest first).
Proof.
  revert first. induction rest as [|d rest IH]; intros first; [done|].
  cbn [length]. rewrite lookup_cons, last_cons_default. apply IH.
Qed.

(** The range read covers every definition of the request. *)
Lemma range_covers first rest d :
  ~ overlapping (first :: rest) ->
  Forall (fun d => 0 <= RegisterDefinition.length d) (first :: rest) ->
  d ∈ first :: rest ->
  RegisterDefinition.register first <= RegisterDefinition.register d
  /\ RegisterDefinition.register d + RegisterDefinition.length d
     <= RegisterDefinition.register first + total_length first rest.
Proof.
  intros Hok Hlen Hd. unfold total_length.
  pose proof (last_lookup_cons first rest) as Hlast.
  set (last := List.last rest first) in *.
  apply list_elem_of_lookup in Hd as [i Hi].
  pose proof (lookup_lt_Some _ _ _ Hi) as Hlt. simpl in Hlt.
  pose proof Hlen as Hlen'. rewrite Forall_forall in Hlen'.
  pose proof (Hlen' d (list_elem_of_lookup_2 _ _ _ Hi)) as Hd0.
  pose proof (Hlen' first (list_elem_of_here _ _)) as Hf0.
  split.
  - destruct i as [|i]; [simpl in Hi; injection Hi as ->; lia|].
    pose proof (ordered_pairwise (first :: rest) 0 (S i) first d Hok Hlen
                  ltac:(lia) eq_refl Hi). lia.
  - destruct (decide (i = length rest)) as [->|Hne].
    + rewrite Hlast in Hi. injection Hi as ->. lia.
    + pose proof (ordered_pairwise (first :: rest) i (length rest) d last
                    Hok Hlen ltac:(lia) Hi Hlast).
      pose proof (Hlen' last (list_elem_of_lookup_2 _ _ _ Hlast)). lia.
Qed.

End PlannerMore.

(** X8: a request with a name that the schema does not know fails with
    "Did not recognize all register names", whatever the order of the other
    names is: names are looked up before offsets are compared. *)
Theorem X8_unknown_name_comes_first {Value T : Type} `{Transport T}
    (REGISTERS : gmap string (RegisterDefinition Value))
    (self : AsyncHuaweiSolar Value) (names : list string) (name : string)
    (slave_arg : option Z) (c : T) :
  name ∈ names -> REGISTERS !! name = None ->
  run (get_multiple REGISTERS self names slave_arg) c =
  Outcome (inl (ValueError DidNotRecognize)) c [].
Proof.
  intros Hin Hnone. unfold get_multiple.
  rewrite (resolve_unknown REGISTERS names name Hin Hnone).
  destruct names; [by apply elem_of_nil in Hin|done].
Qed.

Lemma X8_unknown_name_comes_first_witness :
  run (get_multiple demo_registers demo_session ["B"; "A"; "Z"] None)
      (online []) =
  Outcome (inl (ValueError DidNotRecognize)) (online []) [].
Proof.
  apply (X8_unknown_name_comes_first demo_registers demo_session
           ["B"; "A"; "Z"] "Z" None (online [])).
  - set_solver.
  - vm_compute. reflexivity.
Defined.

(** X9: when the resolved definitions overlap somewhere, the [ValueError]
    names the first pair of neighbours that overlaps: the offset and length
    of the earlier one and the offset of the later one. *)
Theorem X9_first_overlap_is_reported {Value T : Type} `{Transport T}
    (REGISTERS : gmap string (RegisterDefinition Value))
    (self : AsyncHuaweiSolar Value) (names : list string)
    (slave_arg : option Z) (c : T)
    (regs : list (RegisterDefinition Value)) (i : nat)
    (p q : RegisterDefinition Value) :
  resolve REGISTERS names = Some regs ->
  (forall j, (j < i)%nat -> pair_fine regs j) ->
  regs !! i = Some p -> regs !! S i = Some q ->
  RegisterDefinition.register p + RegisterDefinition.length p
  > RegisterDefinition.register q ->
  run (get_multiple REGISTERS self names slave_arg) c =
  Outcome
    (inl (ValueError
            (NotMonotonic (RegisterDefinition.register p)
               (RegisterDefinition.length p) (RegisterDefinition.register q))))
    c [].
Proof.
  intros Hres Hfine Hp Hq Hpq. unfold get_multiple. rewrite Hres.
  destruct regs as [|first rest]; [done|].
  rewrite (check_registers_first first rest i p q Hfine Hp Hq Hpq).
  apply resolve_length in Hres. by destruct names.
Qed.

Lemma X9_first_overlap_is_reported_witness :
  run (get_multiple demo_registers demo_session ["A"; "B"; "C"; "B"] None)
      (online []) =
  Outcome (inl (ValueError (NotMonotonic 5 1 1))) (online []) [].
Proof.
  apply (X9_first_overlap_is_reported demo_registers demo_session
           ["A"; "B"; "C"; "B"] None (online [])
           [U16 0 (StaticUnit (Some "V")); U32 1 (StaticUnit (Some "W"));
            U16 5 CallableUnit; U32 1 (StaticUnit (Some "W"))]
           2 (U16 5 CallableUnit) (U32 1 (StaticUnit (Some "W")))).
  - vm_compute. reflexivity.
  - intros j Hj p q Hp Hq.
    destruct j as [|[|j]]; [| |lia]; simpl in Hp, Hq;
      injection Hp as <-; injection Hq as <-; simpl; lia.
  - reflexivity.
  - reflexivity.
  - simpl. lia.
Defined.

(** X10: a request that the planner accepts, over definitions of positive
    length, has strictly increasing offsets, each definition ending before
    the next ones start, and so names no register twice. *)
Theorem X10_accepted_names_are_distinct {Value : Type}
    (REGISTERS : gmap string (RegisterDefinition Value))
    (names : list string) (first : RegisterDefinition Value)
    (rest : list (RegisterDefinition Value)) :
  resolve REGISTERS names = Some (first :: rest) ->
  check_registers first rest = None ->
  Forall (fun d => 0 < RegisterDefinition.length d) (first :: rest) ->
  NoDup names
  /\ forall i j di dj,
       (i < j)%nat ->
       (first :: rest) !! i = Some di -> (first :: rest) !! j = Some dj ->
       RegisterDefinition.register di + RegisterDefinition.length di
       <= RegisterDefinition.register dj
       /\ RegisterDefinition.register di < RegisterDefinition.register dj.
Proof.
  intros Hres Hcheck Hpos. apply check_registers_None in Hcheck.
  assert (Hlen : Forall (fun d => 0 <= RegisterDefinition.length d)
                   (first :: rest)).
  { eapply Forall_impl; [exact Hpos|]. intros d Hd. simpl in Hd. lia. }
  assert (Hord : forall i j di dj,
             (i < j)%nat ->
             (first :: rest) !! i = Some di ->
             (first :: rest) !! j = Some dj ->
             RegisterDefinition.register di + RegisterDefinition.length di
             <= RegisterDefinition.register dj
             /\ RegisterDefinition.register di
                < RegisterDefinition.register dj).
  { intros i j di dj Hij Hi Hj.
    pose proof (ordered_pairwise _ i j di dj Hcheck Hlen Hij Hi Hj).
    rewrite Forall_forall in Hpos.
    pose proof (Hpos di (list_elem_of_lookup_2 _ _ _ Hi)). simpl in *. lia. }
  split; [|exact Hord].
  apply NoDup_alt. intros i j name Hi Hj.
  pose proof (resolve_lookup REGISTERS names _ i name Hres Hi) as Hdi.
  pose proof (resolve_lookup REGISTERS names _ j name Hres Hj) as Hdj.
  pose proof (resolve_length REGISTERS names _ Hres) as Hn.
  destruct (lookup_lt_is_Some_2 (first :: rest) i) as [di Hi'].
  { apply lookup_lt_Some in Hi. lia. }
  destruct (lookup_lt_is_Some_2 (first :: rest) j) as [dj Hj'].
  { apply lookup_lt_Some in Hj. lia. }
  assert (di = dj) as -> by congruence.
  destruct (Nat.lt_trichotomy i j) as [Hlt|[Heq|Hgt]]; [|done|].
  - destruct (Hord i j dj dj Hlt Hi' Hj'). lia.
  - destruct (Hord j i dj dj Hgt Hj' Hi'). lia.
Qed.

Lemma X10_accepted_names_are_distinct_witness :
  NoDup ["A"; "B"; "C"]
  /\ forall i j di dj,
       (i < j)%nat ->
       [U16 0 (StaticUnit (Some "V")); U32 1 (StaticUnit (Some "W"));
        U16 5 CallableUnit] !! i = Some di ->
       [U16 0 (StaticUnit (Some "V")); U32 1 (StaticUnit (Some "W"));
        U16 5 CallableUnit] !! j = Some dj ->
       RegisterDefinition.register di + RegisterDefinition.length di
       <= RegisterDefinition.register dj
       /\ RegisterDefinition.register di < RegisterDefinition.register dj.
Proof.
  apply (X10_accepted_names_are_distinct demo_registers ["A"; "B"; "C"]
           (U16 0 (StaticUnit (Some "V")))
           [U32 1 (StaticUnit (Some "W")); U16 5 CallableUnit]).
  - vm_compute. reflexivity.
  - reflexivity.
  - repeat constructor.
Defined.

(** X11: over definitions whose length is not negative, every read that
    [get_multiple] puts on the wire covers every requested register: it
    starts at or before the register's offset and ends at or after its
    end. *)
Theorem X11_read_covers_every_field {Value T : Type} `{Transport T}
    (REGISTERS : gmap string (RegisterDefinition Value))
    (self : AsyncHuaweiSolar Value) (names : list string)
    (slave_arg : option Z) (c : T) (address count unit_id timeout : Z)
    (name : string) (d : RegisterDefinition Value) :
  (forall name d, name ∈ names -> REGISTERS !! name = Some d ->
     0 <= RegisterDefinition.length d) ->
  In (ReadHolding address count unit_id timeout)
     (trace (run (get_multiple REGISTERS self names slave_arg) c)) ->
  name ∈ names -> REGISTERS !! name = Some d ->
  address <= RegisterDefinition.register d
  /\ RegisterDefinition.register d + RegisterDefinition.length d
     <= address + count.
Proof.
  intros Hlen Hin Hname Hd.
  destruct (get_multiple_trace REGISTERS self names slave_arg c)
    as [Hnil|(first & rest & Hres & Hok & Htr)];
    [by rewrite Hnil in Hin|].
  rewrite Htr in Hin.
  destruct (read_registers_trace self (RegisterDefinition.register first)
              (total_length first rest) slave_arg c) as (Hreads & _).
  cbv zeta in Hreads. rewrite Forall_forall in Hreads.
  apply list_elem_of_In in Hin.
  injection (Hreads _ Hin eq_refl) as -> -> _ _.
  assert (Hregs : forall d', d' ∈ first :: rest ->
                    exists name', name' ∈ names
                                  /\ REGISTERS !! name' = Some d').
  { intros d' Hd'. apply list_elem_of_lookup in Hd' as [i Hi].
    pose proof (resolve_length REGISTERS names _ Hres) as Hn.
    destruct (lookup_lt_is_Some_2 names i) as [name' Hi'].
    { apply lookup_lt_Some in Hi. lia. }
    exists name'. split; [by eapply list_elem_of_lookup_2|].
    by rewrite (resolve_lookup REGISTERS names _ i name' Hres Hi'). }
  apply range_covers; [done| |].
  - apply Forall_forall. intros d' Hd'.
    destruct (Hregs d' Hd') as (name' & Hn' & Hd''). by eapply Hlen.
  - apply list_elem_of_lookup in Hname as [i Hi].
    apply list_elem_of_lookup. exists i.
    by rewrite <- (resolve_lookup REGISTERS names _ i name Hres Hi).
Qed.

Lemma X11_read_covers_every_field_witness :
  0 <= RegisterDefinition.register (U16 5 CallableUnit)
  /\ RegisterDefinition.register (U16 5 CallableUnit)
     + RegisterDefinition.length (U16 5 CallableUnit) <= 0 + 6.
Proof.
  apply (X11_read_covers_every_field demo_registers demo_session
           ["A"; "C"] None (online [inr (Registers [1; 2; 3; 4; 5; 6])])
           0 6 3 5 "C" (U16 5 CallableUnit)).
  - intros name d Hname Hd.
    assert (name = "A" \/ name = "C") as [-> | ->].
    { apply elem_of_cons in Hname as [->|Hname]; [by left|].
      apply elem_of_cons in Hname as [->|Hname]; [by right|].
      by apply elem_of_nil in Hname. }
    all: vm_compute in Hd; injection Hd as <-; simpl; lia.
  - vm_compute. right. by left.
  - set_solver.
  - vm_compute. reflexivity.
Defined.

(** X12: a per-call slave id other than 0 is the unit of every read of the
    call, whatever the session's own slave id is, for [get_multiple] and for
    [get]. *)
Theorem X12_per_call_slave_is_used {Value T : Type} `{Transport T}
    (REGISTERS : gmap string (RegisterDefinition Value))
    (self : AsyncHuaweiSolar Value) (names : list string) (name : string)
    (per_call : Z) (c : T) :
  per_call <> 0 ->
  let to_per_call tr :=
    Forall (fun e => forall a n u t, e = ReadHolding a n u t ->
                     u = per_call /\ t = _timeout self) tr in
  to_per_call
    (trace (run (get_multiple REGISTERS self names (Some per_call)) c))
  /\ to_per_call
       (trace (run (get REGISTERS self name (Some per_call)) c)).
Proof.
  intros Hne. cbv zeta.
  assert (Hany : forall names,
             Forall (fun e => forall a n u t, e = ReadHolding a n u t ->
                              u = per_call /\ t = _timeout self)
               (trace (run (get_multiple REGISTERS self names
                              (Some per_call)) c))).
  { clear names. intros names.
    destruct (get_multiple_trace REGISTERS self names (Some per_call) c)
      as [->|(first & rest & _ & _ & ->)]; [constructor|].
    eapply Forall_impl;
      [apply (read_registers_trace self _ _ (Some per_call) c)|].
    intros e He a n u t ->. injection (He eq_refl) as _ _ -> ->.
    split; [|done]. simpl. by destruct (Z.eqb_spec per_call 0). }
  split; [apply Hany|]. rewrite get_trace. apply Hany.
Qed.

Lemma X12_per_call_slave_is_used_witness :
  let to_per_call tr :=
    Forall (fun e => forall a n u t, e = ReadHolding a n u t ->
                     u = 9 /\ t = _timeout demo_session) tr in
  to_per_call
    (trace (run (get_multiple demo_registers demo_session ["A"; "B"]
                   (Some 9)) (online [inr (Registers [1; 2; 3])])))
  /\ to_per_call
       (trace (run (get demo_registers demo_session "A" (Some 9))
                 (online [inr (Registers [1; 2; 3])]))).
Proof.
  apply (X12_per_call_slave_is_used demo_registers demo_session ["A"; "B"]
           "A" 9 (online [inr (Registers [1; 2; 3])])).
  lia.
Defined.

(** ** Creating a session *)

Section Creating.

Context {Value T : Type} `{Transport T} `{Stoppable T}.
Variable REGISTERS : gmap string (RegisterDefinition Value).
Variables TIME_ZONE STORAGE_UNIT_1_PRODUCT_MODEL : string.
Implicit Types self : AsyncHuaweiSolar Value.

(** [get] of a name of the schema on a client that is not connected. *)
Lemma get_not_connected self name slave_arg (c : T) :
  is_Some (REGISTERS !! name) -> connected c = false ->
  run (get REGISTERS self name slave_arg) c =
  Outcome (inl ConnectionException) c [LockAcquire; LockRelease].
Proof.
  intros [reg Hreg] Hc. unfold get. rewrite run_bind.
  assert (Hres : resolve REGISTERS [name] = Some [reg]).
  { unfold resolve. apply mapM_Some. by repeat constructor. }
  assert (Hok : ~ overlapping [reg]).
  { intros (i & p & q & _ & Hq & _). by destruct i. }
  rewrite (run_get_multiple REGISTERS self [name] slave_arg reg [] c Hres Hok).
  cbv zeta. rewrite run_read_registers, run_on_exception.
  cbv zeta. by rewrite Hc.
Qed.

(** [get] of a name that the schema does not have. *)
Lemma get_unknown self name slave_arg (c : T) :
  REGISTERS !! name = None ->
  run (get REGISTERS self name slave_arg) c =
  Outcome (inl (ValueError DidNotRecognize)) c [].
Proof.
  intros Hnone. unfold get. rewrite run_bind.
  unfold get_multiple, resolve. simpl. by rewrite Hnone.
Qed.

(** The number of requests in the trace of a [get]. *)
Lemma get_wire_reads self name slave_arg (c : T) :
  (wire_reads (trace (run (get REGISTERS self name slave_arg) c)) <= 5)%nat.
Proof.
  rewrite get_trace.
  destruct (get_multiple_trace REGISTERS self [name] slave_arg c)
    as [->|(first & rest & _ & _ & ->)]; [unfold wire_reads; simpl; lia|].
  apply (read_registers_trace self _ _ slave_arg c).
Qed.

End Creating.

(** X13: when no client can be obtained, [create] raises that exception
    and nothing else happens.  With a client, [create] sleeps a second and
    makes two reads, each of at most 5 requests and each giving the lock
    back; when it fails it stops the client, once and as the last thing it
    does; when it succeeds it does not stop the client. *)
Theorem X13_create_stops_the_client_on_failure {Value T : Type}
    `{Transport T} `{Stoppable T}
    (REGISTERS : gmap string (RegisterDefinition Value))
    (TIME_ZONE STORAGE_UNIT_1_PRODUCT_MODEL : string)
    (init_tcp_client : exn + T) (slave_arg timeout : Z) (cooldown_time : Q) :
  let cr := create REGISTERS TIME_ZONE STORAGE_UNIT_1_PRODUCT_MODEL
              init_tcp_client slave_arg timeout cooldown_time in
  match init_tcp_client with
  | inl err => cr = Creation (inl err) None []
  | inr tcp_client =>
      exists tr1 tr2,
        lock_balanced tr1 /\ lock_balanced tr2
        /\ (wire_reads tr1 <= 5)%nat /\ (wire_reads tr2 <= 5)%nat
        /\ is_Some (created_client cr)
        /\ history cr =
           map During (Sleep 1%Q :: tr1 ++ tr2)
           ++ match created cr with
              | inl _ => [ClientStopped]
              | inr _ => []
              end
  end.
Proof.
  cbv zeta. destruct init_tcp_client as [err|tcp_client]; [reflexivity|].
  unfold create, __get_client.
  set (s0 := __init__ slave_arg timeout cooldown_time).
  set (o1 := run (get REGISTERS s0 TIME_ZONE None) tcp_client).
  assert (Hb1 : lock_balanced (trace o1)).
  { subst o1. rewrite get_trace. apply get_multiple_lock_balanced. }
  pose proof (get_wire_reads REGISTERS s0 TIME_ZONE None tcp_client) as Hw1.
  fold o1 in Hw1.
  destruct (result o1) as [err|r1] eqn:H1.
  - unfold stop_and_raise.
    destruct (client_stop (client o1)) as [raised stopped].
    cbn [created history created_client].
    exists (trace o1), []. rewrite app_nil_r.
    repeat split; [done|by left|done|unfold wire_reads; simpl; lia|done].
  - cbv zeta.
    set (s1 := {| _timeout := _; _cooldown_time := _; slave := _;
                  time_zone := Some (value r1); battery_type := _ |}).
    set (o2 := run (get REGISTERS s1 STORAGE_UNIT_1_PRODUCT_MODEL None)
                 (client o1)).
    assert (Hb2 : lock_balanced (trace o2)).
    { subst o2. rewrite get_trace. apply get_multiple_lock_balanced. }
    pose proof (get_wire_reads REGISTERS s1 STORAGE_UNIT_1_PRODUCT_MODEL None
                  (client o1)) as Hw2.
    fold o2 in Hw2.
    destruct (result o2) as [err|r2] eqn:H2.
    + unfold stop_and_raise.
      destruct (client_stop (client o2)) as [raised stopped].
      cbn [created history created_client].
      exists (trace o1), (trace o2). repeat split; done.
    + cbn [created history created_client].
      exists (trace o1), (trace o2). rewrite app_nil_r. repeat split; done.
Qed.

(** X14: a session that [create] hands out carries the arguments it was
    created with, and its time zone and battery type are both set: the time
    zone from the first read, the battery type from a second read that is
    made, on the client as the first read left it, by a session whose time
    zone is already set. *)
Theorem X14_created_session_is_complete {Value T : Type}
    `{Transport T} `{Stoppable T}
    (REGISTERS : gmap string (RegisterDefinition Value))
    (TIME_ZONE STORAGE_UNIT_1_PRODUCT_MODEL : string)
    (init_tcp_client : exn + T) (slave_arg timeout : Z) (cooldown_time : Q)
    (huawei_solar : AsyncHuaweiSolar Value) :
  created (create REGISTERS TIME_ZONE STORAGE_UNIT_1_PRODUCT_MODEL
             init_tcp_client slave_arg timeout cooldown_time)
    = inr huawei_solar ->
  slave huawei_solar = slave_arg
  /\ _timeout huawei_solar = timeout
  /\ _cooldown_time huawei_solar = cooldown_time
  /\ exists tcp_client r1 r2,
       init_tcp_client = inr tcp_client
       /\ time_zone huawei_solar = Some (value r1)
       /\ battery_type huawei_solar = Some (value r2)
       /\ let o1 := run (get REGISTERS
                           (__init__ slave_arg timeout cooldown_time)
                           TIME_ZONE None) tcp_client in
          result o1 = inr r1
          /\ result (run (get REGISTERS
                            {| _timeout := timeout;
                               _cooldown_time := cooldown_time;
                               slave := slave_arg;
                               time_zone := Some (value r1);
                               battery_type := None |}
                            STORAGE_UNIT_1_PRODUCT_MODEL None) (client o1))
             = inr r2.
Proof.
  destruct init_tcp_client as [err|tcp_client]; [done|].
  unfold create, __get_client.
  set (o1 := run (get REGISTERS (__init__ slave_arg timeout cooldown_time)
                    TIME_ZONE None) tcp_client).
  destruct (result o1) as [err|r1] eqn:H1.
  { unfold stop_and_raise. by destruct (client_stop (client o1)). }
  cbv zeta. cbn [__init__ _timeout _cooldown_time slave battery_type].
  destruct (result (run (get REGISTERS _ STORAGE_UNIT_1_PRODUCT_MODEL None)
                      (client o1))) as [err|r2] eqn:H2.
  { unfold stop_and_raise. by destruct (client_stop (client o1)),
      (client_stop (client (run (get REGISTERS _ _ None) (client o1)))). }
  cbn [created]. intros [= <-]. repeat split.
  exists tcp_client, r1, r2. by repeat split.
Qed.

Lemma X14_created_session_is_complete_witness :
  slave {| _timeout := 5; _cooldown_time := DEFAULT_COOLDOWN_TIME;
           slave := 3; time_zone := Some 60; battery_type := Some 2 |} = 3
  /\ _timeout {| _timeout := 5; _cooldown_time := DEFAULT_COOLDOWN_TIME;
                 slave := 3; time_zone := Some 60; battery_type := Some 2 |}
     = 5
  /\ _cooldown_time
       {| _timeout := 5; _cooldown_time := DEFAULT_COOLDOWN_TIME;
          slave := 3; time_zone := Some 60; battery_type := Some 2 |}
     = DEFAULT_COOLDOWN_TIME
  /\ exists tcp_client r1 r2,
       @inr exn mock (online [inr (Registers [60]); inr (Registers [2])])
         = inr tcp_client
       /\ time_zone
            {| _timeout := 5; _cooldown_time := DEFAULT_COOLDOWN_TIME;
               slave := 3; time_zone := Some 60; battery_type := Some 2 |}
          = Some (value r1)
       /\ battery_type
            {| _timeout := 5; _cooldown_time := DEFAULT_COOLDOWN_TIME;
               slave := 3; time_zone := Some 60; battery_type := Some 2 |}
          = Some (value r2)
       /\ let o1 := run (get demo_registers
                           (__init__ 3 5 DEFAULT_COOLDOWN_TIME) "A" None)
                        tcp_client in
          result o1 = inr r1
          /\ result (run (get demo_registers
                            {| _timeout := 5;
                               _cooldown_time := DEFAULT_COOLDOWN_TIME;
                               slave := 3;
                               time_zone := Some (value r1);
                               battery_type := None |}
                            "C" None) (client o1))
             = inr r2.
Proof.
  apply (X14_created_session_is_complete demo_registers "A" "C"
           (inr (online [inr (Registers [60]); inr (Registers [2])]))
           3 5 DEFAULT_COOLDOWN_TIME).
  vm_compute. reflexivity.
Defined.

(** X15: on a client that is not connected, [create] sends nothing: it
    sleeps its second, takes and gives back the lock once, stops the client
    and raises [ConnectionException] (or what the stopping raises). *)
Theorem X15_create_on_a_disconnected_client {Value T : Type}
    `{Transport T} `{Stoppable T}
    (REGISTERS : gmap string (RegisterDefinition Value))
    (TIME_ZONE STORAGE_UNIT_1_PRODUCT_MODEL : string)
    (tcp_client : T) (slave_arg timeout : Z) (cooldown_time : Q) :
  is_Some (REGISTERS !! TIME_ZONE) ->
  connected tcp_client = false ->
  create REGISTERS TIME_ZONE STORAGE_UNIT_1_PRODUCT_MODEL
    (inr tcp_client) slave_arg timeout cooldown_time =
  Creation
    (inl match fst (client_stop tcp_client) with
         | Some err => err
         | None => ConnectionException
         end)
    (Some (snd (client_stop tcp_client)))
    [During (Sleep 1%Q); During LockAcquire; During LockRelease;
     ClientStopped].
Proof.
  intros Hknown Hc. unfold create, __get_client.
  rewrite (get_not_connected REGISTERS _ TIME_ZONE None tcp_client Hknown Hc).
  cbn [result client trace]. unfold stop_and_raise.
  by destruct (client_stop tcp_client).
Qed.

Lemma X15_create_on_a_disconnected_client_witness :
  create demo_registers "A" "C" (inr offline) 3 5 DEFAULT_COOLDOWN_TIME =
  Creation
    (inl match fst (client_stop offline) with
         | Some err => err
         | None => ConnectionException
         end)
    (Some (snd (client_stop offline)))
    [During (Sleep 1%Q); During LockAcquire; During LockRelease;
     ClientStopped].
Proof.
  apply (X15_create_on_a_disconnected_client demo_registers "A" "C" offline
           3 5 DEFAULT_COOLDOWN_TIME).
  - vm_compute. by eexists.
  - reflexivity.
Defined.

(** X16: when the schema has no entry for the time zone register,
    [create] touches neither the lock nor the wire: it sleeps its second,
    stops the client and raises the [ValueError] of the unknown name (or
    what the stopping raises). *)
Theorem X16_create_without_time_zone_register {Value T : Type}
    `{Transport T} `{Stoppable T}
    (REGISTERS : gmap string (RegisterDefinition Value))
    (TIME_ZONE STORAGE_UNIT_1_PRODUCT_MODEL : string)
    (tcp_client : T) (slave_arg timeout : Z) (cooldown_time : Q) :
  REGISTERS !! TIME_ZONE = None ->
  create REGISTERS TIME_ZONE STORAGE_UNIT_1_PRODUCT_MODEL
    (inr tcp_client) slave_arg timeout cooldown_time =
  Creation
    (inl match fst (client_stop tcp_client) with
         | Some err => err
         | None => ValueError DidNotRecognize
         end)
    (Some (snd (client_stop tcp_client)))
    [During (Sleep 1%Q); ClientStopped].
Proof.
  intros Hnone. unfold create, __get_client.
  rewrite (get_unknown REGISTERS _ TIME_ZONE None tcp_client Hnone).
  cbn [result client trace]. unfold stop_and_raise.
  by destruct (client_stop tcp_client).
Qed.

Lemma X16_create_without_time_zone_register_witness :
  create demo_registers "TZ" "C" (inr (online [])) 3 5 DEFAULT_COOLDOWN_TIME =
  Creation
    (inl match fst (client_stop (online [])) with
         | Some err => err
         | None => ValueError DidNotRecognize
         end)
    (Some (snd (client_stop (online []))))
    [During (Sleep 1%Q); ClientStopped].
Proof.
  apply (X16_create_without_time_zone_register demo_registers "TZ" "C"
           (online []) 3 5 DEFAULT_COOLDOWN_TIME).
  vm_compute. reflexivity.
Defined.

(** ** Callers are not stuck *)

Section Progress.

Context {T : Type} `{Transport T} {A : Type}.
Variable cooldown : Q.
Implicit Types s : system T A.

Lemma start_lock_owned (c : T) (callers : list (prog A)) :
  lock_owned (start c callers).
Proof. by intros i Hi. Qed.

Lemma step_lock_owned ch s s' :
  bracketed cooldown s -> lock_owned s -> step ch s = Some s' ->
  lock_owned s'.
Proof.
  intros Hbr Hown Hstep.
  assert (Hneutral : forall i tk tk' (c' : T) did,
             sys_tasks s !! i = Some tk ->
             Forall no_lock_event did ->
             lock_owned (System c' (sys_lock s) (sys_now s)
                           (<[i := tk']> (sys_tasks s))
                           (map (Stamped (sys_now s) i) did ++ sys_log s))).
  { intros i tk tk' c' did Hi Hdid j Hj. cbn [sys_lock sys_log sys_tasks] in *.
    rewrite phase_of_neutral, length_insert by done. by apply Hown. }
  destruct ch as [i|d]; simpl in Hstep.
  - destruct (sys_tasks s !! i) as [[p|until k|a n u t k]|] eqn:Hi;
      [|..|done].
    + destruct p as [v|e|k|a n u t k|d k|k|k]; try done.
      * injection Hstep as <-. by apply (Hneutral i _ _ _ [] Hi).
      * injection Hstep as <-.
        apply (Hneutral i _ _ _ [_] Hi). by repeat constructor.
      * injection Hstep as <-.
        apply (Hneutral i _ _ _ [_] Hi). by repeat constructor.
      * destruct (sys_lock s) eqn:Hl; [done|]. injection Hstep as <-.
        intros j [= <-]. cbn [sys_log sys_tasks].
        rewrite phase_of_cons_same, length_insert.
        split; [done|by eapply lookup_lt_Some].
      * injection Hstep as <-. by intros j Hj.
    + destruct (Qle_bool until (sys_now s)); [|done].
      injection Hstep as <-. by apply (Hneutral i _ _ _ [] Hi).
    + destruct (read_holding_registers (sys_client s) a n u t) as [r c'].
      injection Hstep as <-.
      apply (Hneutral i _ _ _ [_] Hi). by repeat constructor.
  - destruct (Qle_bool 0 d); [|done]. by injection Hstep as <-.
Qed.

Lemma exec_lock_owned schedule s s' :
  bracketed cooldown s -> lock_owned s ->
  exec schedule s = Some s' ->
  bracketed cooldown s' /\ lock_owned s'.
Proof.
  revert s. induction schedule as [|ch schedule IH]; intros s Hbr Hown.
  - by intros [= <-].
  - simpl. destruct (step ch s) as [s1|] eqn:Hstep; [|done].
    apply IH; [by eapply step_bracketed|by eapply step_lock_owned].
Qed.

(** A caller that has not finished and does not wait for a lock that is
    taken can take a step once enough time has passed. *)
Lemma enabled_after_tick s i tk :
  sys_tasks s !! i = Some tk -> finished tk = false ->
  (forall k, tk = Ready (Acquire k) -> sys_lock s = None) ->
  exists d s1 s2, step (Tick d) s = Some s1 /\ step (Run i) s1 = Some s2.
Proof.
  intros Hi Hfin Hacq.
  assert (Hnow : forall d, (0 <= d)%Q ->
            step (Tick d) s =
            Some (System (sys_client s) (sys_lock s) (sys_now s + d)%Q
                    (sys_tasks s) (sys_log s))).
  { intros d Hd. simpl. apply Qle_bool_iff in Hd. by rewrite Hd. }
  assert (Hgo : forall d s2,
            (0 <= d)%Q ->
            step (Run i)
              (System (sys_client s) (sys_lock s) (sys_now s + d)%Q
                 (sys_tasks s) (sys_log s)) = Some s2 ->
            exists d s1 s2,
              step (Tick d) s = Some s1 /\ step (Run i) s1 = Some s2).
  { intros d s2 Hd Hs2. exists d. eexists. exists s2.
    split; [by apply Hnow|exact Hs2]. }
  destruct tk as [p|until k|a n u t k].
  - destruct p as [v|e|k|a n u t k|d k|k|k]; try done;
      try (eapply (Hgo 0%Q); [lra|]; simpl; rewrite Hi; reflexivity).
    eapply (Hgo 0%Q); [lra|]. simpl. rewrite Hi, (Hacq k eq_refl).
    reflexivity.
  - destruct (Qle_bool until (sys_now s)) eqn:Hu.
    + eapply (Hgo 0%Q); [lra|]. simpl. rewrite Hi.
      assert (Qle_bool until (sys_now s + 0) = true) as ->; [|reflexivity].
      apply Qle_bool_iff in Hu. apply Qle_bool_iff. lra.
    + assert (Hlate : (sys_now s < until)%Q).
      { apply Qnot_le_lt. intros Hle. apply Qle_bool_iff in Hle. congruence. }
      eapply (Hgo (until - sys_now s)%Q); [lra|]. simpl. rewrite Hi.
      assert (Qle_bool until (sys_now s + (until - sys_now s)) = true) as ->;
        [|reflexivity].
      apply Qle_bool_iff. lra.
  - destruct (read_holding_registers (sys_client s) a n u t) as [r c'] eqn:Hr.
    eapply (Hgo 0%Q); [lra|]. simpl. rewrite Hi, Hr. reflexivity.
Qed.

Lemma owned_progress s :
  bracketed cooldown s -> lock_owned s ->
  (exists i tk, sys_tasks s !! i = Some tk /\ finished tk = false) ->
  exists d i s1 s2, step (Tick d) s = Some s1 /\ step (Run i) s1 = Some s2.
Proof.
  intros Hbr Hown (j & tkj & Hj & Hfin).
  destruct (sys_lock s) as [h|] eqn:Hl.
  - destruct (Hown h Hl) as [Hph Hlt].
    destruct (lookup_lt_is_Some_2 _ _ Hlt) as [tk Hh].
    pose proof (br_tasks cooldown s Hbr h tk Hh) as Hdisc.
    rewrite Hph in Hdisc.
    destruct (enabled_after_tick s h tk Hh) as (d & s1 & s2 & Hs);
      [| |by exists d, h, s1, s2].
    + by destruct tk as [[]| |]; simpl in *.
    + intros k ->. by destruct Hdisc.
  - destruct (enabled_after_tick s j tkj Hj Hfin) as (d & s1 & s2 & Hs);
      [done|by exists d, j, s1, s2].
Qed.

Lemma owned_free_at_the_end s :
  bracketed cooldown s -> lock_owned s ->
  Forall (fun tk => finished tk = true) (sys_tasks s) ->
  sys_lock s = None.
Proof.
  intros Hbr Hown Hall.
  destruct (sys_lock s) as [h|] eqn:Hl; [|done].
  destruct (Hown h Hl) as [Hph Hlt].
  destruct (lookup_lt_is_Some_2 _ _ Hlt) as [tk Hh].
  pose proof (br_tasks cooldown s Hbr h tk Hh) as Hdisc.
  rewrite Hph in Hdisc.
  rewrite Forall_forall in Hall.
  pose proof (Hall tk (list_elem_of_lookup_2 _ _ _ Hh)) as Hfin.
  by destruct tk as [[]| |]; simpl in *.
Qed.

End Progress.

(** X17: callers of [_read_registers] on one session never get stuck on
    the lock: in every state the scheduler can reach, as long as some caller
    has not finished, some caller can take a step after enough time has
    passed; and once every caller has finished the lock is free. *)
Theorem X17_no_caller_is_stuck {Value T : Type} `{Transport T}
    (self : AsyncHuaweiSolar Value) (requests : list (Z * Z * option Z))
    (c : T) (s : system T response) :
  reachable c
    (map (fun '(register, length, slave_arg) =>
            _read_registers self register length slave_arg) requests) s ->
  ((exists i tk, sys_tasks s !! i = Some tk /\ finished tk = false) ->
   exists d i s1 s2, step (Tick d) s = Some s1 /\ step (Run i) s1 = Some s2)
  /\ (Forall (fun tk => finished tk = true) (sys_tasks s) ->
      sys_lock s = None).
Proof.
  intros [schedule Hexec].
  apply exec_lock_owned with (cooldown := _cooldown_time self) in Hexec
    as [Hbr Hown].
  - split; [by eapply owned_progress|by eapply owned_free_at_the_end].
  - apply start_bracketed. apply Forall_forall. intros p Hp.
    apply list_elem_of_In, in_map_iff in Hp
      as ([[register length] slave_arg] & <- & _).
    apply read_registers_disciplined.
  - apply start_lock_owned.
Qed.

Lemma X17_no_caller_is_stuck_witness :
  ((exists i tk, sys_tasks hasty_state !! i = Some tk /\ finished tk = false) ->
   exists d i s1 s2,
     step (Tick d) hasty_state = Some s1 /\ step (Run i) s1 = Some s2)
  /\ (Forall (fun tk => finished tk = true) (sys_tasks hasty_state) ->
      sys_lock hasty_state = None).
Proof.
  apply (X17_no_caller_is_stuck demo_session [(0, 1, None); (5, 1, None)]
           (online [inl ModbusConnectionException; inr (Registers [8])])
           hasty_state).
  exists hasty_schedule. vm_compute. reflexivity.
Defined.

(** ** The log is a sequence of whole sections *)

(** [_read_registers] is quiet outside its guarded section. *)
Lemma guarded_retry_quiet {Value : Type}
    (self : AsyncHuaweiSolar Value) (register length : Z)
    (slave_arg : option Z) (n tries : nat) :
  quiet Holding
    (catch
       (bind
          (result <- on_exception n tries
                       (_do_read self register length slave_arg) ;;
           sleep (_cooldown_time self) ;;
           Return result)%prog
          (fun a => Release (Return a)))
       (fun e => Release (Raise e))).
Proof.
  revert tries.
  induction n as [|n IH]; intros tries; cbn; intros [|]; cbn;
    try done; (split; [done|]); intros [[]|resp]; cbn; done.
Qed.

Lemma read_registers_quiet {Value : Type}
    (self : AsyncHuaweiSolar Value) (register length : Z)
    (slave_arg : option Z) :
  quiet Before (_read_registers self register length slave_arg).
Proof.
  unfold _read_registers, async_with_lock.
  split; [done|apply guarded_retry_quiet].
Qed.

Section Sections.

Context {T : Type} `{Transport T} {A : Type}.
Variable cooldown : Q.
Implicit Types s : system T A.

Lemma start_sectioned (c : T) (callers : list (prog A)) :
  Forall (quiet Before) callers -> sectioned (start c callers).
Proof.
  intros Hall. split; [|done..].
  intros i tk Hi. apply list_lookup_fmap_Some in Hi as (p & -> & Hp).
  eapply Forall_lookup_1 in Hall; [|exact Hp]. exact Hall.
Qed.

(** A step of caller [i] that puts nothing on the log. *)
Lemma silent_step_sectioned s i tk tk' :
  sectioned s -> sys_tasks s !! i = Some tk ->
  task_quiet (phase_of (sys_log s) i) tk' ->
  sectioned (System (sys_client s) (sys_lock s) (sys_now s)
               (<[i := tk']> (sys_tasks s)) (sys_log s)).
Proof.
  intros [Htasks Hlatest Hlog] Hi Htk'. split; [|done..].
  cbn [sys_tasks sys_log]. intros j tkj Hj.
  destruct (decide (i = j)) as [<-|Hne].
  - rewrite list_lookup_insert_eq in Hj by (by eapply lookup_lt_Some).
    by injection Hj as <-.
  - rewrite list_lookup_insert_ne in Hj by done. by apply Htasks.
Qed.

(** A step of caller [i] that puts one entry on the log. *)
Lemma entry_step_sectioned s i tk tk' lock' (c' : T) (l : label) :
  sectioned s -> sys_tasks s !! i = Some tk ->
  task_quiet (phase_of (Stamped (sys_now s) i l :: sys_log s) i) tk' ->
  (* the caller holds the lock, or takes the free lock *)
  (sys_lock s = Some i /\ is_acquire l = false
   \/ sys_lock s = None /\ l = Did LockAcquire) ->
  lock' = (if is_release l then None else Some i) ->
  sectioned (System c' lock' (sys_now s) (<[i := tk']> (sys_tasks s))
               (Stamped (sys_now s) i l :: sys_log s)).
Proof.
  intros [Htasks Hlatest Hlog] Hi Htk' Hwho ->.
  split; cbn [sys_tasks sys_log sys_lock].
  - intros j tkj Hj. destruct (decide (i = j)) as [<-|Hne].
    + rewrite list_lookup_insert_eq in Hj by (by eapply lookup_lt_Some).
      by injection Hj as <-.
    + rewrite list_lookup_insert_ne in Hj by done.
      rewrite phase_of_cons_other by done. by apply Htasks.
  - unfold latest_owns. cbn [sys_log sys_lock what by_task].
    by destruct (is_release l).
  - unfold latest_owns in Hlatest.
    destruct (sys_log s) as [|older log] eqn:Hlog'; [done|].
    split; [|exact Hlog]. cbn [by_task what].
    destruct Hwho as [[Hl _]|[Hl ->]].
    + left. rewrite Hl in Hlatest.
      destruct (is_release (what older)); [done|]. by injection Hlatest.
    + right. rewrite Hl in Hlatest.
      destruct (what older) as [[]|]; simpl in Hlatest; done.
Qed.

Lemma step_sectioned ch s s' :
  bracketed cooldown s -> sectioned s -> step ch s = Some s' ->
  sectioned s'.
Proof.
  intros Hbr Hsc Hstep.
  pose proof (br_lock cooldown s Hbr) as Hlock.
  destruct ch as [i|d]; simpl in Hstep.
  - destruct (sys_tasks s !! i) as [[p|until k|a n u t k]|] eqn:Hi;
      [|..|done].
    + pose proof (sc_tasks s Hsc i _ Hi) as Hp.
      destruct p as [v|e|k|a n u t k|d k|k|k]; try done.
      * injection Hstep as <-.
        apply (silent_step_sectioned s i _ _ Hsc Hi). apply Hp.
      * injection Hstep as <-. destruct Hp as [Hh Hk].
        apply (entry_step_sectioned s i _ _ _ _ _ Hsc Hi);
          [rewrite phase_of_cons_same; by split
          |left; split; [by apply Hlock|done]
          |first [done|simpl; by apply Hlock]].
      * injection Hstep as <-. destruct Hp as [Hh Hk].
        apply (entry_step_sectioned s i _ _ _ _ _ Hsc Hi);
          [rewrite phase_of_cons_same; by split
          |left; split; [by apply Hlock|done]
          |first [done|simpl; by apply Hlock]].
      * destruct (sys_lock s) eqn:Hl; [done|]. injection Hstep as <-.
        destruct Hp as [Hb Hk].
        apply (entry_step_sectioned s i _ _ _ _ _ Hsc Hi);
          [by rewrite phase_of_cons_same|by right|done].
      * injection Hstep as <-. destruct Hp as [Hh Hk].
        apply (entry_step_sectioned s i _ _ _ _ _ Hsc Hi);
          [by rewrite phase_of_cons_same
          |left; split; [by apply Hlock|done]
          |first [done|simpl; by apply Hlock]].
    + pose proof (sc_tasks s Hsc i _ Hi) as [Hh Hk].
      destruct (Qle_bool until (sys_now s)); [|done].
      injection Hstep as <-.
      apply (silent_step_sectioned s i _ _ Hsc Hi). simpl. by rewrite Hh.
    + pose proof (sc_tasks s Hsc i _ Hi) as [Hh Hk].
      destruct (read_holding_registers (sys_client s) a n u t) as [r c'].
      injection Hstep as <-.
      apply (entry_step_sectioned s i _ _ _ _ _ Hsc Hi);
        [rewrite phase_of_cons_same, Hh; apply Hk
        |left; split; [by apply Hlock|done]
          |first [done|simpl; by apply Hlock]].
  - destruct (Qle_bool 0 d); [|done]. injection Hstep as <-.
    destruct Hsc as [Htasks Hlatest Hlog]. by split.
Qed.

Lemma exec_sectioned schedule s s' :
  bracketed cooldown s -> sectioned s ->
  exec schedule s = Some s' -> sectioned s'.
Proof.
  revert s. induction schedule as [|ch schedule IH]; intros s Hbr Hsc.
  - by intros [= <-].
  - simpl. destruct (step ch s) as [s1|] eqn:Hstep; [|done].
    apply IH; [by eapply step_bracketed|by eapply step_sectioned].
Qed.

End Sections.

(** X18: with callers of [_read_registers] on one session, the log of
    everything that happens is a sequence of whole guarded sections: two
    neighbouring entries are by the same caller, or the older one is a
    release and the newer one the next caller's acquire.  No caller's
    request, response or sleep ever falls between another caller's acquire
    and release. *)
Theorem X18_sections_follow_one_another {Value T : Type} `{Transport T}
    (self : AsyncHuaweiSolar Value) (requests : list (Z * Z * option Z))
    (c : T) (s : system T response) :
  reachable c
    (map (fun '(register, length, slave_arg) =>
            _read_registers self register length slave_arg) requests) s ->
  contiguous (sys_log s) /\ latest_owns s.
Proof.
  intros [schedule Hexec].
  apply exec_sectioned with (cooldown := _cooldown_time self) in Hexec
    as [_ Hlatest Hlog]; [done| |].
  - apply start_bracketed. apply Forall_forall. intros p Hp.
    apply list_elem_of_In, in_map_iff in Hp
      as ([[register length] slave_arg] & <- & _).
    apply read_registers_disciplined.
  - apply start_sectioned. apply Forall_forall. intros p Hp.
    apply list_elem_of_In, in_map_iff in Hp
      as ([[register length] slave_arg] & <- & _).
    apply read_registers_quiet.
Qed.

Lemma X18_sections_follow_one_another_witness :
  contiguous (sys_log patient_state) /\ latest_owns patient_state.
Proof.
  apply (X18_sections_follow_one_another demo_session
           [(0, 1, None); (5, 1, None)]
           (online [inr (Registers [7]); inr (Registers [8])])
           patient_state).
  exists patient_schedule. vm_compute. reflexivity.
Defined.
